(** * Grafana Live: the Centrifuge channel registry (CentrifugeSrv)

    A shallow embedding of the live-channel service of Grafana
    ([CentrifugeSrv], with the types of [@grafana/data]'s [live.ts]) and the
    properties of its channel registry: deduplication of channels by id,
    containment of initialization failures, the first-connect wait point,
    the publish capability and the connection-state observable.

    The service is a single-threaded JavaScript object driven by an event
    loop.  Its mutable fields, the objects it allocates and the promises it
    creates are kept in one explicit state record; every method is a
    computation in a state-and-exception monad; an [async] function is cut at
    its [await]s into segments that the event loop resumes one at a time. *)

From Stdlib Require Import Ascii String.
From stdpp Require Import gmap strings list fin_maps.
(** ** Channel addresses ([live.ts]) *)

Module Address.

(** [enum LiveChannelScope]: a string enum. *)
Inductive LiveChannelScope := DataSource | Plugin | Grafana.

Definition scope_value (s : LiveChannelScope) : string :=
  match s with
  | DataSource => "ds"
  | Plugin => "plugin"
  | Grafana => "grafana"
  end.

Definition separator : ascii := "/"%char.

(** [`${scopeId}/${namespace}/${path}`] *)
Definition format (scopeId namespace path : string) : string :=
  scopeId +:+ "/" +:+ namespace +:+ "/" +:+ path.

(** Does the string contain the separator? *)
Fixpoint has_separator (s : string) : bool :=
  match s with
  | EmptyString => false
  | String a r => Ascii.eqb a separator || has_separator r
  end.

(** A valid segment is non-empty and separator-free. *)
Definition valid_segment (s : string) : bool :=
  negb (String.eqb s "") && negb (has_separator s).

(** The segments of a string between separators. *)
Fixpoint segments (s : string) : list string :=
  match s with
  | EmptyString => [EmptyString]
  | String a r =>
      if Ascii.eqb a separator then EmptyString :: segments r
      else match segments r with
           | seg :: rest => String a seg :: rest
           | [] => [String a EmptyString]
           end
  end.

Definition scope_of_string (s : string) : option LiveChannelScope :=
  if String.eqb s "ds" then Some DataSource
  else if String.eqb s "plugin" then Some Plugin
  else if String.eqb s "grafana" then Some Grafana
  else None.

Inductive AddressError := InvalidAddress.

(** Modelled from the spec: [parse] is not in the source (the service only
    formats ids).  The spec's address model parses an id back into the
    triple and fails with [InvalidAddress] when a segment is empty or
    contains the separator: the id must split at the separators into
    exactly three non-empty segments, the first being a scope. *)
Definition parse (id : string)
  : AddressError + (LiveChannelScope * string * string) :=
  match segments id with
  | [sc; ns; p] =>
      match scope_of_string sc with
      | Some sc' =>
          if valid_segment ns && valid_segment p then inr (sc', ns, p)
          else inl InvalidAddress
      | None => inl InvalidAddress
      end
  | _ => inl InvalidAddress
  end.

End Address.

(** ** Completions and promises *)

(** An error value: the message of a JavaScript [Error]. *)
Definition Error := string.

(** How a synchronous call ends: it returns a value or throws. *)
Inductive Completion (A : Type) : Type :=
| Normal (a : A)
| Throw (e : Error).
Arguments Normal {A} a.
Arguments Throw {A} e.

(** How a promise settles. *)
Inductive Settled (A : Type) : Type :=
| Fulfilled (a : A)
| Rejected (e : Error).
Arguments Fulfilled {A} a.
Arguments Rejected {A} e.

(** ** The types of [live.ts] *)

(** [LiveChannelConfig]; [canPublish] is an optional predicate. *)
Record LiveChannelConfig := {
  cfg_path : string;
  hasPresense : bool;
  canPublish : option (unit → Completion bool);
}.

Inductive LiveChannelConnectionState :=
| Pending | Connected | Disconnected | Shutdown | Invalid.

(** [LiveChannelStatus], without its wall-clock timestamp. *)
Record LiveChannelStatus := {
  status_id : string;
  state : LiveChannelConnectionState;
  error : option Error;
}.

(** [LiveChannelSupport.getChannelConfig(path)] *)
Record LiveChannelSupport := {
  getChannelConfig : string → Completion (option LiveChannelConfig);
}.

(** The scope resolvers ([./scopes]) are collaborators of the service: a
    call of [getChannelSupport(namespace)] either throws or hands back a
    promise, which later settles with a support object, with [undefined], or
    with a rejection. *)
Record GrafanaLiveScope := {
  getChannelSupport :
    string → Completion (Settled (option LiveChannelSupport));
}.

(** ** Property lookup on the [scopes] record *)

(** The property names that every object inherits from [Object.prototype]
    (ECMAScript, with its Annex B). *)
Definition Object_prototype_keys : list string :=
  ["constructor"; "hasOwnProperty"; "isPrototypeOf"; "propertyIsEnumerable";
   "toLocaleString"; "toString"; "valueOf"; "__proto__";
   "__defineGetter__"; "__defineSetter__"; "__lookupGetter__";
   "__lookupSetter__"].

(** What [this.scopes[scopeId]] can be when it is not [undefined]: one of
    the scope resolvers, or a member inherited from [Object.prototype] (a
    function, or the prototype itself for [__proto__]); both are truthy. *)
Inductive ScopeValue :=
| ScopeObject (scope : GrafanaLiveScope)
| InheritedMember (key : string).

(** [o[k]] on the object literal of [scopes]: the own property if there is
    one, then the prototype chain. *)
Definition property_get (o : gmap string GrafanaLiveScope) (k : string)
  : option ScopeValue :=
  match o !! k with
  | Some scope => Some (ScopeObject scope)
  | None =>
      if bool_decide (k ∈ Object_prototype_keys)
      then Some (InheritedMember k)
      else None
  end.

(** [scope.getChannelSupport(namespace)]: an inherited member has no such
    method, and calling [undefined] throws a [TypeError]. *)
Definition call_getChannelSupport (scope : ScopeValue) (namespace : string)
  : Completion (Settled (option LiveChannelSupport)) :=
  match scope with
  | ScopeObject scope => getChannelSupport scope namespace
  | InheritedMember _ =>
      Throw "TypeError: scope.getChannelSupport is not a function"
  end.

(** ** Closures of the service, as data *)

(** [() => { this.open.delete(id) }] *)
Inductive ShutdownCallback := DeleteOpen (id : string).

(** [(data) => this.centrifuge.publish(channel.id, data)] *)
Inductive PublishFunction := PublishVia (id : string).

(** The handle that [this.centrifuge.subscribe(id, events)] returned, named
    by the arguments of the call: the channel id and the channel object
    whose event handlers [events] are.  Whether the client hands back a
    new object for each call or one object per id is its own business: the
    model never compares two handles. *)
Inductive Subscription := SubscriptionOf (id : string) (channel : nat).

(** ** The channel object ([./channel]) *)

Module Channel.

(** Modelled from the spec: the class [CentrifugeLiveChannel] of
    [./channel] is not in the source.  Its fields are those of the spec's
    Channel entity and of the [LiveChannel] interface of [live.ts], plus
    the [subscription], [publish] and [shutdownCallback] fields that the
    service assigns. *)
Record CentrifugeLiveChannel := {
  id : string;
  scope : string;
  namespace : string;
  path : string;
  currentStatus : LiveChannelStatus;
  config : option LiveChannelConfig;
  subscription : option Subscription;
  publish : option PublishFunction;
  shutdownCallback : option ShutdownCallback;
}.

(** Modelled from the spec: the constructor of the absent class.  A
    channel starts in [Pending], with no config, no subscription and no
    publish operation. *)
Definition new (id scope namespace path : string) : CentrifugeLiveChannel :=
  {| id := id; scope := scope; namespace := namespace; path := path;
     currentStatus := {| status_id := id; state := Pending; error := None |};
     config := None; subscription := None; publish := None;
     shutdownCallback := None |}.

Definition with_status (f : LiveChannelStatus → LiveChannelStatus)
    (ch : CentrifugeLiveChannel) : CentrifugeLiveChannel :=
  {| id := id ch; scope := scope ch; namespace := namespace ch;
     path := path ch; currentStatus := f (currentStatus ch);
     config := config ch; subscription := subscription ch;
     publish := publish ch; shutdownCallback := shutdownCallback ch |}.

Definition with_config (v : option LiveChannelConfig)
    (ch : CentrifugeLiveChannel) : CentrifugeLiveChannel :=
  {| id := id ch; scope := scope ch; namespace := namespace ch;
     path := path ch; currentStatus := currentStatus ch;
     config := v; subscription := subscription ch;
     publish := publish ch; shutdownCallback := shutdownCallback ch |}.

Definition with_subscription (v : option Subscription)
    (ch : CentrifugeLiveChannel) : CentrifugeLiveChannel :=
  {| id := id ch; scope := scope ch; namespace := namespace ch;
     path := path ch; currentStatus := currentStatus ch;
     config := config ch; subscription := v;
     publish := publish ch; shutdownCallback := shutdownCallback ch |}.

Definition with_publish (v : option PublishFunction)
    (ch : CentrifugeLiveChannel) : CentrifugeLiveChannel :=
  {| id := id ch; scope := scope ch; namespace := namespace ch;
     path := path ch; currentStatus := currentStatus ch;
     config := config ch; subscription := subscription ch;
     publish := v; shutdownCallback := shutdownCallback ch |}.

Definition with_shutdownCallback (v : option ShutdownCallback)
    (ch : CentrifugeLiveChannel) : CentrifugeLiveChannel :=
  {| id := id ch; scope := scope ch; namespace := namespace ch;
     path := path ch; currentStatus := currentStatus ch;
     config := config ch; subscription := subscription ch;
     publish := publish ch; shutdownCallback := v |}.

Definition set_state (st : LiveChannelConnectionState)
    (s : LiveChannelStatus) : LiveChannelStatus :=
  {| status_id := status_id s; state := st; error := error s |}.

Definition set_error (e : Error) (s : LiveChannelStatus)
  : LiveChannelStatus :=
  {| status_id := status_id s; state := state s; error := Some e |}.

(** Modelled from the spec: the handlers that [initalize] hands to the
    transport.  A successful (re)attachment moves a [Pending] or
    [Disconnected] channel to [Connected]; [Shutdown] and [Invalid] are
    terminal. *)
Definition on_subscribe (s : LiveChannelStatus) : LiveChannelStatus :=
  match state s with
  | Pending | Disconnected => set_state Connected s
  | _ => s
  end.

(** Modelled from the spec: link loss moves [Connected] to
    [Disconnected]. *)
Definition on_unsubscribe (s : LiveChannelStatus) : LiveChannelStatus :=
  match state s with
  | Connected => set_state Disconnected s
  | _ => s
  end.

End Channel.

Abbreviation CentrifugeLiveChannel := Channel.CentrifugeLiveChannel.

(** ** The transport ([Centrifuge]) *)

(** The functions the service registers on the transport. *)
Inductive Listener :=
| connectListener | onConnect | onDisconnect | onServerSideMessage.

Global Instance Listener_eq_dec : EqDecision Listener.
Proof. solve_decision. Defined.

(** Modelled from the spec: the transport is the Centrifuge client, a
    library that is not in the source; the spec gives the contract the
    service consumes: [connect()], [isConnected() -> bool],
    [subscribe(id, eventHandlers) -> subscriptionHandle], and the
    registration of callbacks for connect, disconnect and publish
    notifications.  The model keeps what the service can observe of the
    client and what the service asks of it, and nothing of how the client
    works inside (it has no table of subscriptions): the answer of
    [isConnected()], the listeners registered per event name, and the
    calls of [subscribe] and of [unsubscribe] made so far, oldest first,
    each named by the handle involved. *)
Record Centrifuge := {
  is_connected : bool;
  connect_listeners : list Listener;
  disconnect_listeners : list Listener;
  publish_listeners : list Listener;
  subscribe_calls : list Subscription;
  unsubscribe_calls : list Subscription;
}.

Definition new_Centrifuge (connected : bool) : Centrifuge :=
  {| is_connected := connected; connect_listeners := [];
     disconnect_listeners := []; publish_listeners := [];
     subscribe_calls := []; unsubscribe_calls := [] |}.

Definition set_is_connected (b : bool) (c : Centrifuge) : Centrifuge :=
  {| is_connected := b; connect_listeners := connect_listeners c;
     disconnect_listeners := disconnect_listeners c;
     publish_listeners := publish_listeners c;
     subscribe_calls := subscribe_calls c;
     unsubscribe_calls := unsubscribe_calls c |}.

Definition map_connect_listeners (f : list Listener → list Listener)
    (c : Centrifuge) : Centrifuge :=
  {| is_connected := is_connected c;
     connect_listeners := f (connect_listeners c);
     disconnect_listeners := disconnect_listeners c;
     publish_listeners := publish_listeners c;
     subscribe_calls := subscribe_calls c;
     unsubscribe_calls := unsubscribe_calls c |}.

Definition map_disconnect_listeners (f : list Listener → list Listener)
    (c : Centrifuge) : Centrifuge :=
  {| is_connected := is_connected c;
     connect_listeners := connect_listeners c;
     disconnect_listeners := f (disconnect_listeners c);
     publish_listeners := publish_listeners c;
     subscribe_calls := subscribe_calls c;
     unsubscribe_calls := unsubscribe_calls c |}.

Definition map_publish_listeners (f : list Listener → list Listener)
    (c : Centrifuge) : Centrifuge :=
  {| is_connected := is_connected c;
     connect_listeners := connect_listeners c;
     disconnect_listeners := disconnect_listeners c;
     publish_listeners := f (publish_listeners c);
     subscribe_calls := subscribe_calls c;
     unsubscribe_calls := unsubscribe_calls c |}.

Definition map_subscribe_calls (f : list Subscription → list Subscription)
    (c : Centrifuge) : Centrifuge :=
  {| is_connected := is_connected c;
     connect_listeners := connect_listeners c;
     disconnect_listeners := disconnect_listeners c;
     publish_listeners := publish_listeners c;
     subscribe_calls := f (subscribe_calls c);
     unsubscribe_calls := unsubscribe_calls c |}.

Definition map_unsubscribe_calls (f : list Subscription → list Subscription)
    (c : Centrifuge) : Centrifuge :=
  {| is_connected := is_connected c;
     connect_listeners := connect_listeners c;
     disconnect_listeners := disconnect_listeners c;
     publish_listeners := publish_listeners c;
     subscribe_calls := subscribe_calls c;
     unsubscribe_calls := f (unsubscribe_calls c) |}.

(** [addListener] / [on] append; [removeListener] removes one
    registration. *)
Definition addListener (l : Listener) (ls : list Listener) : list Listener :=
  ls ++ [l].

Fixpoint removeListener (l : Listener) (ls : list Listener) : list Listener :=
  match ls with
  | [] => []
  | x :: r => if decide (x = l) then r else x :: removeListener l r
  end.

(** ** [BehaviorSubject] *)

Record BehaviorSubject (A : Type) := {
  subject_value : A;
  emitted : list A;
}.
Arguments subject_value {A} b.
Arguments emitted {A} b.

Definition new_BehaviorSubject {A} (v : A) : BehaviorSubject A :=
  {| subject_value := v; emitted := [] |}.

Definition subject_next {A} (v : A) (b : BehaviorSubject A)
  : BehaviorSubject A :=
  {| subject_value := v; emitted := emitted b ++ [v] |}.

(** ** The service state *)

(** [Promise<void>] *)
Inductive VoidPromise := Unresolved | Resolved.

(** Where the promise of one [initChannel] call stands: suspended at the
    [await] of [scope.getChannelSupport(...)], whose promise settles with
    [r]; suspended at the [await] of [this.connectionBlocker], with the
    locals [config] and [events] it will go on with; fulfilled; rejected,
    its [catch] handler not yet run; rejected and handled. *)
Inductive InitState :=
| AwaitSupport (r : Settled (option LiveChannelSupport))
| AwaitBlocker (config : LiveChannelConfig) (events : nat)
| InitFulfilled
| InitRejected (err : Error)
| InitHandled (err : Error).

(** The promise returned by [this.initChannel(scope, channel)] together
    with the [channel] and [id] that its [catch] handler captured. *)
Record InitTask := {
  task_channel : nat;
  task_id : string;
  task_state : InitState;
}.

(** The fields of [CentrifugeSrv], then the runtime around it: the object
    store of the channels it allocated (a channel is its index, so two
    references are the same object exactly when the indices are equal), the
    promises of its [initChannel] calls, and the errors that reached the
    event loop unhandled.  [open] is the [Map] from id to channel; [scopes]
    holds the own properties of the record literal of the constructor, and
    [this.scopes[scopeId]] is [property_get], which also finds what the
    literal inherits. *)
Record CentrifugeSrv := {
  open : gmap string nat;
  centrifuge : Centrifuge;
  connectionState : BehaviorSubject bool;
  connectionBlocker : VoidPromise;
  scopes : gmap string GrafanaLiveScope;
  heap : list CentrifugeLiveChannel;
  inits : list InitTask;
  uncaught : list Error;
}.

Definition map_open (f : gmap string nat → gmap string nat)
    (s : CentrifugeSrv) : CentrifugeSrv :=
  {| open := f (open s); centrifuge := centrifuge s;
     connectionState := connectionState s;
     connectionBlocker := connectionBlocker s; scopes := scopes s;
     heap := heap s; inits := inits s; uncaught := uncaught s |}.

Definition map_centrifuge (f : Centrifuge → Centrifuge)
    (s : CentrifugeSrv) : CentrifugeSrv :=
  {| open := open s; centrifuge := f (centrifuge s);
     connectionState := connectionState s;
     connectionBlocker := connectionBlocker s; scopes := scopes s;
     heap := heap s; inits := inits s; uncaught := uncaught s |}.

Definition map_connectionState
    (f : BehaviorSubject bool → BehaviorSubject bool)
    (s : CentrifugeSrv) : CentrifugeSrv :=
  {| open := open s; centrifuge := centrifuge s;
     connectionState := f (connectionState s);
     connectionBlocker := connectionBlocker s; scopes := scopes s;
     heap := heap s; inits := inits s; uncaught := uncaught s |}.

Definition set_connectionBlocker (p : VoidPromise)
    (s : CentrifugeSrv) : CentrifugeSrv :=
  {| open := open s; centrifuge := centrifuge s;
     connectionState := connectionState s;
     connectionBlocker := p; scopes := scopes s;
     heap := heap s; inits := inits s; uncaught := uncaught s |}.

Definition map_heap
    (f : list CentrifugeLiveChannel → list CentrifugeLiveChannel)
    (s : CentrifugeSrv) : CentrifugeSrv :=
  {| open := open s; centrifuge := centrifuge s;
     connectionState := connectionState s;
     connectionBlocker := connectionBlocker s; scopes := scopes s;
     heap := f (heap s); inits := inits s; uncaught := uncaught s |}.

Definition map_inits (f : list InitTask → list InitTask)
    (s : CentrifugeSrv) : CentrifugeSrv :=
  {| open := open s; centrifuge := centrifuge s;
     connectionState := connectionState s;
     connectionBlocker := connectionBlocker s; scopes := scopes s;
     heap := heap s; inits := f (inits s); uncaught := uncaught s |}.

Definition map_uncaught (f : list Error → list Error)
    (s : CentrifugeSrv) : CentrifugeSrv :=
  {| open := open s; centrifuge := centrifuge s;
     connectionState := connectionState s;
     connectionBlocker := connectionBlocker s; scopes := scopes s;
     heap := heap s; inits := inits s; uncaught := f (uncaught s) |}.

(** ** The method monad: state and exceptions *)

Definition M (A : Type) : Type :=
  CentrifugeSrv → Completion A * CentrifugeSrv.

Global Instance M_ret : MRet M := λ A a s, (Normal a, s).

Global Instance M_bind : MBind M := λ A B k m s,
  match m s with
  | (Normal a, s') => k a s'
  | (Throw e, s') => (Throw e, s')
  end.

Definition throw {A} (e : Error) : M A := λ s, (Throw e, s).

Definition gets {A} (f : CentrifugeSrv → A) : M A := λ s, (Normal (f s), s).

Definition modify (f : CentrifugeSrv → CentrifugeSrv) : M unit :=
  λ s, (Normal tt, f s).

(** A call into a collaborator. *)
Definition call {A} (c : Completion A) : M A := λ s, (c, s).

(** The value an [await] resumes with; the suspension itself is the cut
    between two segments of the [async] function. *)
Definition await {A} (r : Settled A) : M A :=
  match r with
  | Fulfilled a => mret a
  | Rejected e => throw e
  end.

(** The body of an [async] function never throws to its caller: a throw
    rejects the promise. *)
Definition async (body : M InitState) : M InitState := λ s,
  match body s with
  | (Normal st, s') => (Normal st, s')
  | (Throw e, s') => (Normal (InitRejected e), s')
  end.

(** ** Channel methods on the object store *)

Definition deref (c : nat) : M CentrifugeLiveChannel := λ s,
  match heap s !! c with
  | Some ch => (Normal ch, s)
  | None => (Throw "TypeError: channel is undefined", s)
  end.

Definition update (c : nat)
    (f : CentrifugeLiveChannel → CentrifugeLiveChannel) : M unit :=
  modify (map_heap (alter f c)).

(** [new CentrifugeLiveChannel(id, scope, namespace, path)] *)
Definition new_CentrifugeLiveChannel (id scope namespace path : string)
  : M nat :=
  c ← gets (λ s, length (heap s));
  modify (map_heap (λ h, h ++ [Channel.new id scope namespace path]));;
  mret c.

Definition run_callback (cb : ShutdownCallback) : M unit :=
  match cb with
  | DeleteOpen id => modify (map_open (delete id))
  end.

(** Modelled from the spec: [subscription.unsubscribe()] is a method of
    the transport client's handle; the call is recorded. *)
Definition unsubscribe (sub : Subscription) : M unit :=
  modify (map_centrifuge (map_unsubscribe_calls (λ l, l ++ [sub]))).

(** Modelled from the spec: [disconnect()] of the absent channel class.
    It forces the channel to [Shutdown] whatever its state, releases the
    transport subscription if there is one, and removes the channel from
    the registry, which it can only do through the [shutdownCallback] that
    the service installed. *)
Definition disconnect (c : nat) : M unit :=
  ch ← deref c;
  update c (Channel.with_status (Channel.set_state Shutdown));;
  match Channel.subscription ch with
  | Some sub => unsubscribe sub;; update c (Channel.with_subscription None)
  | None => mret tt
  end;;
  match Channel.shutdownCallback ch with
  | Some cb => run_callback cb
  | None => mret tt
  end.

(** Modelled from the spec: [shutdownWithError(err)] of the absent channel
    class forces the channel to Shutdown-with-error: the error goes into
    the status and the channel shuts down. *)
Definition shutdownWithError (c : nat) (err : Error) : M unit :=
  update c (Channel.with_status (Channel.set_error err));;
  disconnect c.

(** Modelled from the spec: [initalize(config)] of the absent channel class
    stores the resolved config and returns the event handlers for the
    transport subscription (the handlers are those of this channel). *)
Definition initalize (c : nat) (config : LiveChannelConfig) : M nat :=
  update c (Channel.with_config (Some config));;
  mret c.

(** Modelled from the spec: [getErrorChannel] of the absent [./channel].
    The doc comment of [getChannel] says what it returns: a shutdown
    channel with an error state in its status. *)
Definition getErrorChannel (msg : Error) (id scope namespace path : string)
  : M nat :=
  c ← new_CentrifugeLiveChannel id scope namespace path;
  shutdownWithError c msg;;
  mret c.

(** The transport delivers a subscription event to the handlers of a
    channel whose subscription is attached. *)
Definition subscription_event (f : LiveChannelStatus → LiveChannelStatus)
    (c : nat) : M unit :=
  ch ← gets (λ s, heap s !! c);
  match ch with
  | Some ch =>
      match Channel.subscription ch with
      | Some _ => update c (Channel.with_status f)
      | None => mret tt
      end
  | None => mret tt
  end.

(** ** [CentrifugeSrv] *)

(** The constructor.  [connected] is what [this.centrifuge.isConnected()]
    answers right after [this.centrifuge.connect()]; the three scope
    resolvers are the own properties of the [scopes] record (what the
    record inherits is in [property_get]). *)
Definition new_CentrifugeSrv (connected : bool)
    (grafanaLiveCoreFeatures dataSourceScope pluginScope : GrafanaLiveScope)
  : CentrifugeSrv :=
  let centrifuge0 := new_Centrifuge connected in
  let connectionState0 := new_BehaviorSubject connected in
  let '(blocker, centrifuge1) :=
    if connected then (Resolved, centrifuge0)
    else (Unresolved,
          map_connect_listeners (addListener connectListener) centrifuge0) in
  let scopes0 : gmap string GrafanaLiveScope :=
    <[Address.scope_value Address.Plugin := pluginScope]>
      (<[Address.scope_value Address.DataSource := dataSourceScope]>
         (<[Address.scope_value Address.Grafana := grafanaLiveCoreFeatures]>
            ∅)) in
  let centrifuge2 :=
    map_publish_listeners (addListener onServerSideMessage)
      (map_disconnect_listeners (addListener onDisconnect)
         (map_connect_listeners (addListener onConnect) centrifuge1)) in
  {| open := ∅; centrifuge := centrifuge2;
     connectionState := connectionState0; connectionBlocker := blocker;
     scopes := scopes0; heap := []; inits := []; uncaught := [] |}.

(** What each registered listener does when the transport calls it (the
    [console.log] calls have no effect on the state). *)
Definition invoke (l : Listener) : M unit :=
  match l with
  | connectListener =>
      modify (set_connectionBlocker Resolved);;
      modify (map_centrifuge
                (map_connect_listeners (removeListener connectListener)))
  | onConnect => modify (map_connectionState (subject_next true))
  | onDisconnect => modify (map_connectionState (subject_next false))
  | onServerSideMessage => mret tt
  end.

Fixpoint emit (ls : list Listener) : M unit :=
  match ls with
  | [] => mret tt
  | l :: ls => invoke l;; emit ls
  end.

Definition isConnected : M bool := gets (λ s, is_connected (centrifuge s)).

(** [getConnectionState()]: the subject, seen as an observable. *)
Definition getConnectionState : M (BehaviorSubject bool) :=
  gets connectionState.

(** Modelled from the spec: [this.centrifuge.subscribe(id, events)] is a
    method of the transport client, which is not in the source.  By the
    contract [subscribe(id, eventHandlers) -> subscriptionHandle] the call
    returns a handle; the model records the call and names the handle
    after it.  Failures of the subscription come later, through the event
    handlers. *)
Definition centrifuge_subscribe (id : string) (events : nat)
  : M Subscription :=
  let sub := SubscriptionOf id events in
  modify (map_centrifuge (map_subscribe_calls (λ l, l ++ [sub])));;
  mret sub.

(** [initChannel], from the connection check's continuation to the end. *)
Definition initChannel_connected (channel : nat)
    (config : LiveChannelConfig) (events : nat) : M InitState :=
  can ← match canPublish config with
        | None => mret false
        | Some f => call (f tt)
        end;
  (if can : bool then
     ch ← deref channel;
     update channel
       (Channel.with_publish (Some (PublishVia (Channel.id ch))))
   else mret tt);;
  ch ← deref channel;
  sub ← centrifuge_subscribe (Channel.id ch) events;
  update channel (Channel.with_subscription (Some sub));;
  mret InitFulfilled.

(** [initChannel], resumed when the promise of [getChannelSupport]
    settles, up to the [await] of the connection blocker. *)
Definition initChannel_resolved (channel : nat)
    (r : Settled (option LiveChannelSupport)) : M InitState :=
  support ← await r;
  ch ← deref channel;
  match support with
  | None => throw (Channel.namespace ch +:+ "does not support streaming")
  | Some support =>
      config ← call (getChannelConfig support (Channel.path ch));
      match config with
      | None => throw ("unknown path: " +:+ Channel.path ch)
      | Some config =>
          events ← initalize channel config;
          connected ← isConnected;
          if negb connected then mret (AwaitBlocker config events)
          else initChannel_connected channel config events
      end
  end.

(** [initChannel], up to its first [await]. *)
Definition initChannel (scope : ScopeValue) (channel : nat)
  : M InitState :=
  ch ← deref channel;
  r ← call (call_getChannelSupport scope (Channel.namespace ch));
  mret (AwaitSupport r).

(** [getChannel(scopeId, namespace, path)].  At run time [scopeId] is a
    string, whatever its declared type; the result is the channel object. *)
Definition getChannel (scopeId namespace path : string) : M nat :=
  let id := scopeId +:+ "/" +:+ namespace +:+ "/" +:+ path in
  channel ← gets (λ s, open s !! id);
  match channel with
  | Some channel => mret channel
  | None =>
      scope ← gets (λ s, property_get (scopes s) scopeId);
      match scope with
      | None => getErrorChannel "invalid scope" id scopeId namespace path
      | Some scope =>
          channel ← new_CentrifugeLiveChannel id scopeId namespace path;
          update channel
            (Channel.with_shutdownCallback (Some (DeleteOpen id)));;
          modify (map_open (insert id channel));;
          st ← async (initChannel scope channel);
          modify (map_inits (λ l, l ++ [{| task_channel := channel;
                                           task_id := id;
                                           task_state := st |}]));;
          mret channel
      end
  end.

Definition with_task_state (st : InitState) (t : InitTask) : InitTask :=
  {| task_channel := task_channel t; task_id := task_id t;
     task_state := st |}.

Definition set_task_state (i : nat) (st : InitState) : M unit :=
  modify (map_inits (alter (with_task_state st) i)).

(** One turn of the event loop for the [i]-th [initChannel] promise: the
    next segment of the [async] function, or the [catch] handler of
    [getChannel] once the promise is rejected. *)
Definition resume (i : nat) : M unit :=
  t ← gets (λ s, inits s !! i);
  match t with
  | None => mret tt
  | Some t =>
      match task_state t with
      | AwaitSupport r =>
          st ← async (initChannel_resolved (task_channel t) r);
          set_task_state i st
      | AwaitBlocker config events =>
          blocker ← gets connectionBlocker;
          match blocker with
          | Unresolved => mret tt
          | Resolved =>
              st ← async (initChannel_connected (task_channel t)
                            config events);
              set_task_state i st
          end
      | InitRejected err =>
          shutdownWithError (task_channel t) err;;
          modify (map_open (delete (task_id t)));;
          set_task_state i (InitHandled err)
      | InitFulfilled | InitHandled _ => mret tt
      end
  end.

(** ** The event loop *)

(** Modelled from the spec: the transport's side of its contract.  The
    client is connected from the moment it emits [connect] until it emits
    [disconnect], and it calls the listeners registered for an event in
    the order of their registration. *)
Definition transport_connect : M unit :=
  modify (map_centrifuge (set_is_connected true));;
  ls ← gets (λ s, connect_listeners (centrifuge s));
  emit ls.

Definition transport_disconnect : M unit :=
  modify (map_centrifuge (set_is_connected false));;
  ls ← gets (λ s, disconnect_listeners (centrifuge s));
  emit ls.

Definition transport_publish : M unit :=
  ls ← gets (λ s, publish_listeners (centrifuge s));
  emit ls.

Inductive Event :=
| GetChannel (scopeId namespace path : string)
| ChannelDisconnect (channel : nat)
| TransportConnect
| TransportDisconnect
| ServerPublish
| SubscriptionUp (channel : nat)
| SubscriptionDown (channel : nat)
| Resume (i : nat).

(** A job run by the event loop: an error it throws is unhandled. *)
Definition job (m : M unit) (s : CentrifugeSrv) : CentrifugeSrv :=
  match m s with
  | (Normal _, s') => s'
  | (Throw e, s') => map_uncaught (λ l, l ++ [e]) s'
  end.

(** A call made by a consumer: its completion goes to the consumer. *)
Definition consumer_call {A} (m : M A) (s : CentrifugeSrv) : CentrifugeSrv :=
  snd (m s).

Definition step (e : Event) (s : CentrifugeSrv) : CentrifugeSrv :=
  match e with
  | GetChannel scopeId namespace path =>
      consumer_call (getChannel scopeId namespace path) s
  | ChannelDisconnect c => consumer_call (disconnect c) s
  | TransportConnect => job transport_connect s
  | TransportDisconnect => job transport_disconnect s
  | ServerPublish => job transport_publish s
  | SubscriptionUp c => job (subscription_event Channel.on_subscribe c) s
  | SubscriptionDown c => job (subscription_event Channel.on_unsubscribe c) s
  | Resume i => job (resume i) s
  end.

Fixpoint run (es : list Event) (s : CentrifugeSrv) : CentrifugeSrv :=
  match es with
  | [] => s
  | e :: es => run es (step e s)
  end.

(** ** Invariants of the reachable states *)

(** The fields of a channel that only [getChannel] and [initChannel]
    assign. *)
Definition core (ch : CentrifugeLiveChannel) :=
  (Channel.id ch, Channel.scope ch, Channel.namespace ch, Channel.path ch,
   Channel.config ch, Channel.publish ch, Channel.shutdownCallback ch).

(** A channel with a shutdown callback was made by the registering branch
    of [getChannel]: the callback deletes the channel's own id, the id is
    the formatted address, and the lookup of the scope in [scopes] finds
    something. *)
Definition callback_ok (sc : gmap string GrafanaLiveScope)
    (ch : CentrifugeLiveChannel) : Prop :=
  ∀ cb, Channel.shutdownCallback ch = Some cb →
    cb = DeleteOpen (Channel.id ch)
    ∧ Channel.id ch
      = Address.format (Channel.scope ch) (Channel.namespace ch)
          (Channel.path ch)
    ∧ is_Some (property_get sc (Channel.scope ch)).

(** The publish permission the resolved config grants. *)
Definition permits (cfg : LiveChannelConfig) : Prop :=
  ∃ f, canPublish cfg = Some f ∧ f tt = Normal true.

(** What the state of an [initChannel] promise says about its channel. *)
Definition publish_ok (st : InitState) (ch : CentrifugeLiveChannel) : Prop :=
  match st with
  | InitFulfilled =>
      ∃ cfg, Channel.config ch = Some cfg
             ∧ (is_Some (Channel.publish ch) ↔ permits cfg)
  | AwaitBlocker cfg _ =>
      Channel.config ch = Some cfg ∧ Channel.publish ch = None
  | AwaitSupport _ | InitRejected _ | InitHandled _ =>
      Channel.publish ch = None
  end.

(** The invariant of the reachable states: callbacks are those of
    [getChannel]; a registered id leads to an existing channel with that
    id and the callback that deletes it; every promise belongs to an
    existing channel, a different one each, and agrees with it on the
    publish capability; no error has reached the event loop. *)
Record Inv (s : CentrifugeSrv) : Prop := {
  inv_callbacks :
    ∀ c ch, heap s !! c = Some ch → callback_ok (scopes s) ch;
  inv_open :
    ∀ k c, open s !! k = Some c →
      ∃ ch, heap s !! c = Some ch ∧ Channel.id ch = k
            ∧ Channel.shutdownCallback ch = Some (DeleteOpen k);
  inv_tasks :
    ∀ i t, inits s !! i = Some t →
      ∃ ch, heap s !! task_channel t = Some ch
            ∧ Channel.id ch = task_id t
            ∧ publish_ok (task_state t) ch;
  inv_tasks_distinct :
    ∀ i j ti tj, inits s !! i = Some ti → inits s !! j = Some tj →
      task_channel ti = task_channel tj → i = j;
  inv_uncaught : uncaught s = [];
}.

(** An update of a channel object that keeps its identity and its
    shutdown callback. *)
Definition stable (f : CentrifugeLiveChannel → CentrifugeLiveChannel)
  : Prop :=
  ∀ x, Channel.id (f x) = Channel.id x
       ∧ Channel.scope (f x) = Channel.scope x
       ∧ Channel.namespace (f x) = Channel.namespace x
       ∧ Channel.path (f x) = Channel.path x
       ∧ Channel.shutdownCallback (f x) = Channel.shutdownCallback x.


(** What the transport callbacks, and nothing else, drive. *)
Definition transport_view (s : CentrifugeSrv) :=
  (is_connected (centrifuge s), connect_listeners (centrifuge s),
   disconnect_listeners (centrifuge s), publish_listeners (centrifuge s),
   connectionState s, connectionBlocker s).

(** The events that come from consumers of channels and from the promises
    of channel initializations, as opposed to the transport's callbacks. *)
Definition channel_event (e : Event) : bool :=
  match e with
  | TransportConnect | TransportDisconnect | ServerPublish => false
  | _ => true
  end.

(** A computation that leaves one aspect of the state as it found it. *)
Definition keeps {A B} (π : CentrifugeSrv → A) (m : M B) : Prop :=
  ∀ s, π (snd (m s)) = π s.

(** The values the transport's callbacks feed to the subject: [true] for
    each [connect], [false] for each [disconnect]. *)
Definition transport_log (es : list Event) : list bool :=
  omap (λ e, match e with
             | TransportConnect => Some true
             | TransportDisconnect => Some false
             | _ => None
             end) es.

(** The subject after [next(v)] for each value in turn. *)
Definition replay (b : BehaviorSubject bool) (vs : list bool)
  : BehaviorSubject bool :=
  foldl (λ b v, subject_next v b) b vs.

(** The listeners as the constructor registered them; [connectListener]
    is there until it has run. *)
Definition listeners_ok (s : CentrifugeSrv) : Prop :=
  (connect_listeners (centrifuge s) = [connectListener; onConnect]
   ∨ connect_listeners (centrifuge s) = [onConnect])
  ∧ disconnect_listeners (centrifuge s) = [onDisconnect]
  ∧ publish_listeners (centrifuge s) = [onServerSideMessage].

(** The transport has not connected yet. *)
Record never_connected (s : CentrifugeSrv) : Prop := {
  nc_disconnected : is_connected (centrifuge s) = false;
  nc_blocker : connectionBlocker s = Unresolved;
  nc_connect : connect_listeners (centrifuge s) = [connectListener; onConnect];
  nc_disconnect : disconnect_listeners (centrifuge s) = [onDisconnect];
  nc_publish : publish_listeners (centrifuge s) = [onServerSideMessage];
  nc_subscribe_calls : subscribe_calls (centrifuge s) = [];
  nc_channels : Forall (λ ch, Channel.subscription ch = None) (heap s);
  nc_tasks : Forall (λ t, task_state t ≠ InitFulfilled) (inits s);
}.

Global Instance ShutdownCallback_eq_dec : EqDecision ShutdownCallback.
Proof. solve_decision. Defined.




(** The state [getChannel] leaves when it registers a new channel. *)
Definition registered (s : CentrifugeSrv) (scopeId namespace path : string)
    (st : InitState) : CentrifugeSrv :=
  let id := Address.format scopeId namespace path in
  let c := length (heap s) in
  map_inits (λ l, l ++ [{| task_channel := c; task_id := id;
                           task_state := st |}])
    (map_open (insert id c)
       (map_heap
          (λ h, h ++ [Channel.with_shutdownCallback (Some (DeleteOpen id))
                        (Channel.new id scopeId namespace path)])
          s)).

(** The promise of [initChannel] right after the call. *)
Definition started (g : ScopeValue) (namespace : string) : InitState :=
  match call_getChannelSupport g namespace with
  | Normal r => AwaitSupport r
  | Throw e => InitRejected e
  end.

(** The channel [getErrorChannel] makes. *)
Definition error_channel (msg : Error) (id scopeId namespace path : string)
  : CentrifugeLiveChannel :=
  Channel.with_status (Channel.set_state Shutdown)
    (Channel.with_status (Channel.set_error msg)
       (Channel.new id scopeId namespace path)).

(** The initialization behind the [i]-th promise raises [e]: its next
    segment throws [e], or an earlier one did and the promise is rejected
    with [e], its [catch] handler still to run. *)
Definition raises (s : CentrifugeSrv) (i : nat) (e : Error) : Prop :=
  ∃ t, inits s !! i = Some t
       ∧ match task_state t with
         | AwaitSupport r =>
             fst (initChannel_resolved (task_channel t) r s) = Throw e
         | AwaitBlocker config events =>
             connectionBlocker s = Resolved
             ∧ fst (initChannel_connected (task_channel t) config events s)
               = Throw e
         | InitRejected e' => e' = e
         | InitFulfilled | InitHandled _ => False
         end.

(** ** A sample environment

    The built-in [testdata] feature of the [grafana] scope with two paths,
    one of which may be published to; no data source and no plugin
    supports streaming. *)
Module Sample.

Definition random_2s_stream : LiveChannelConfig :=
  {| cfg_path := "random-2s-stream"; hasPresense := false;
     canPublish := Some (λ _, Normal true) |}.

Definition random_flakey_stream : LiveChannelConfig :=
  {| cfg_path := "random-flakey-stream"; hasPresense := false;
     canPublish := None |}.

Definition testdata : LiveChannelSupport :=
  {| getChannelConfig := λ path,
       if String.eqb path "random-2s-stream"
       then Normal (Some random_2s_stream)
       else if String.eqb path "random-flakey-stream"
       then Normal (Some random_flakey_stream)
       else Normal None |}.

Definition grafanaLiveCoreFeatures : GrafanaLiveScope :=
  {| getChannelSupport := λ namespace,
       if String.eqb namespace "testdata"
       then Normal (Fulfilled (Some testdata))
       else Normal (Fulfilled None) |}.

Definition unsupported : GrafanaLiveScope :=
  {| getChannelSupport := λ _, Normal (Fulfilled None) |}.

(** [new CentrifugeSrv()], the transport not yet connected. *)
Definition srv : CentrifugeSrv :=
  new_CentrifugeSrv false grafanaLiveCoreFeatures unsupported unsupported.

End Sample.

(** ** Further notions for the service's own properties *)

(** What [config.canPublish && config.canPublish()] evaluates to. *)
Definition can_publish (cfg : LiveChannelConfig) : Completion bool :=
  match canPublish cfg with
  | None => Normal false
  | Some f => f tt
  end.

(** The listeners on [connect] that go with the state of the blocker, and
    the other two registrations of the constructor. *)
Definition blocker_shape (s : CentrifugeSrv) : Prop :=
  connect_listeners (centrifuge s)
  = match connectionBlocker s with
    | Unresolved => [connectListener; onConnect]
    | Resolved => [onConnect]
    end
  ∧ disconnect_listeners (centrifuge s) = [onDisconnect]
  ∧ publish_listeners (centrifuge s) = [onServerSideMessage].

(** The second state has every channel object of the first, at the same
    index and with the same read-only fields. *)
Definition extends (s s' : CentrifugeSrv) : Prop :=
  ∀ c ch, heap s !! c = Some ch →
    ∃ ch', heap s' !! c = Some ch'
           ∧ Channel.id ch' = Channel.id ch
           ∧ Channel.scope ch' = Channel.scope ch
           ∧ Channel.namespace ch' = Channel.namespace ch
           ∧ Channel.path ch' = Channel.path ch.

(** A computation that keeps the channel objects and their read-only
    fields. *)
Definition grows {B} (m : M B) : Prop := ∀ s, extends s (snd (m s)).

(** A channel whose publish operation, if any, targets its own id. *)
Definition publishes_own_id (ch : CentrifugeLiveChannel) : Prop :=
  ∀ f, Channel.publish ch = Some f → f = PublishVia (Channel.id ch).

(** A computation that keeps a property of the state. *)
Definition preserves {B} (I : CentrifugeSrv → Prop) (m : M B) : Prop :=
  ∀ s, I s → I (snd (m s)).

(** What the channels' side of the service consists of. *)
Definition channel_view (s : CentrifugeSrv) :=
  (open s, heap s, inits s, scopes s, subscribe_calls (centrifuge s),
   unsubscribe_calls (centrifuge s)).

(** ** Theorems *)

Section AddressFacts.
Import Address.

Lemma segments_separator_free (s : string) :
  has_separator s = false → segments s = [s].
Proof.
  induction s as [|a r IH]; simpl; [done|].
  intros [Ha Hr]%orb_false_iff. rewrite Ha, (IH Hr). done.
Qed.

Lemma segments_append (a b : string) :
  has_separator a = false →
  segments (a +:+ "/" +:+ b) = a :: segments b.
Proof.
  induction a as [|x r IH]; simpl; [done|].
  intros [Hx Hr]%orb_false_iff. rewrite Hx, (IH Hr). done.
Qed.

Lemma scope_value_separator_free (sc : LiveChannelScope) :
  has_separator (scope_value sc) = false.
Proof. by destruct sc. Qed.

Lemma scope_of_string_value (sc : LiveChannelScope) :
  scope_of_string (scope_value sc) = Some sc.
Proof. by destruct sc. Qed.

(** C8: parsing the formatted id of a scope of the enum and of non-empty,
    separator-free namespace and path gives back the triple. *)
Theorem parse_format_roundtrip (sc : LiveChannelScope) (ns p : string) :
  valid_segment ns = true →
  valid_segment p = true →
  parse (format (scope_value sc) ns p) = inr (sc, ns, p).
Proof.
  intros Hns Hp. unfold parse, format.
  pose proof Hns as [_ Hns']%andb_true_iff.
  pose proof Hp as [_ Hp']%andb_true_iff.
  apply negb_true_iff in Hns', Hp'.
  rewrite (segments_append _ _ (scope_value_separator_free sc)).
  rewrite (segments_append _ _ Hns').
  rewrite (segments_separator_free _ Hp').
  by rewrite scope_of_string_value, Hns, Hp.
Qed.

End AddressFacts.

Lemma parse_format_roundtrip_witness :
  Address.parse (Address.format "grafana" "testdata" "random-2s-stream")
  = inr (Address.Grafana, "testdata", "random-2s-stream").
Proof.
  apply (parse_format_roundtrip Address.Grafana "testdata" "random-2s-stream");
    reflexivity.
Defined.

Ltac munfold :=
  repeat (progress (unfold getChannel, getErrorChannel, shutdownWithError,
    disconnect, new_CentrifugeLiveChannel, update, deref, run_callback,
    unsubscribe, initalize, initChannel, initChannel_resolved,
    initChannel_connected, centrifuge_subscribe, isConnected, resume,
    set_task_state, subscription_event, transport_connect,
    transport_disconnect, transport_publish,
    async, call, await, gets, modify, throw,
    mbind, mret, M_bind, M_ret in *)); simpl in *.

Lemma lookup_snoc_length {A} (l : list A) (x : A) :
  (l ++ [x]) !! length l = Some x.
Proof. by rewrite list_lookup_middle. Qed.

Lemma alter_snoc_length {A} (f : A → A) (l : list A) (x : A) :
  alter f (length l) (l ++ [x]) = l ++ [f x].
Proof. rewrite alter_app_r_alt by lia. by rewrite Nat.sub_diag. Qed.

Lemma core_fmap_alter (f : CentrifugeLiveChannel → CentrifugeLiveChannel)
    (c : nat) (h : list CentrifugeLiveChannel) :
  (∀ ch, core (f ch) = core ch) → core <$> alter f c h = core <$> h.
Proof.
  intros Hf. revert c. induction h as [|x h IH]; intros [|c]; simpl; [done..| |].
  - by rewrite Hf.
  - f_equal. apply IH.
Qed.

Lemma core_lookup (h h' : list CentrifugeLiveChannel) (c : nat)
    (ch' : CentrifugeLiveChannel) :
  core <$> h' = core <$> h → h' !! c = Some ch' →
  ∃ ch, h !! c = Some ch ∧ core ch' = core ch.
Proof.
  intros Heq Hc.
  assert ((core <$> h') !! c = Some (core ch')) as H by by rewrite list_lookup_fmap, Hc.
  rewrite Heq, list_lookup_fmap in H.
  destruct (h !! c) as [ch|]; simpl in H; [|done]. exists ch. split; [done|]. by apply (inj Some) in H.
Qed.

Lemma core_lookup_inv (h h' : list CentrifugeLiveChannel) (c : nat)
    (ch : CentrifugeLiveChannel) :
  core <$> h' = core <$> h → h !! c = Some ch →
  ∃ ch', h' !! c = Some ch' ∧ core ch' = core ch.
Proof.
  intros Heq Hc. symmetry in Heq.
  destruct (core_lookup h' h c ch Heq Hc) as (ch' & ? & ?). eauto.
Qed.

Lemma callback_ok_core sc ch ch' :
  core ch' = core ch → callback_ok sc ch → callback_ok sc ch'.
Proof. unfold core, callback_ok. intros ? H. simplify_eq. destruct ch, ch'; simplify_eq/=. done. Qed.

Lemma publish_ok_core st ch ch' :
  core ch' = core ch → publish_ok st ch → publish_ok st ch'.
Proof. unfold core. intros ? H. destruct ch, ch'; simplify_eq/=. done. Qed.

(** The invariant reads the channels through [core] only, and the registry
    may shrink. *)
Lemma Inv_weaken (s s' : CentrifugeSrv) :
  open s' ⊆ open s → scopes s' = scopes s → inits s' = inits s →
  uncaught s' = uncaught s → core <$> heap s' = core <$> heap s →
  Inv s → Inv s'.
Proof.
  intros Ho Hs Hi Hu Hh [I1 I2 I3 I4 I5]. split.
  - intros c ch' Hc. destruct (core_lookup _ _ _ _ Hh Hc) as (ch & Hch & Hcore).
    rewrite Hs. eapply callback_ok_core; eauto.
  - intros k c Hk. eapply lookup_weaken in Hk; [|exact Ho].
    destruct (I2 _ _ Hk) as (ch & Hch & Hid & Hcb).
    destruct (core_lookup_inv _ _ _ _ Hh Hch) as (ch' & Hch' & Hcore).
    exists ch'. unfold core in Hcore. destruct ch, ch'; simplify_eq/=. done.
  - rewrite Hi. intros i t Ht. destruct (I3 _ _ Ht) as (ch & Hch & Hid & Hp).
    destruct (core_lookup_inv _ _ _ _ Hh Hch) as (ch' & Hch' & Hcore).
    exists ch'. split; [done|]. split.
    + unfold core in Hcore. destruct ch, ch'; simplify_eq/=. done.
    + eapply publish_ok_core; eauto.
  - rewrite Hi. exact I4.
  - by rewrite Hu.
Qed.

Ltac solve_core :=
  simpl; repeat (rewrite core_fmap_alter by (by intros [])); done.

Lemma Inv_new (connected : bool) (g d p : GrafanaLiveScope) :
  Inv (new_CentrifugeSrv connected g d p).
Proof.
  unfold new_CentrifugeSrv. destruct connected; split; simpl; try done.
Qed.

(** A fresh channel without a shutdown callback. *)
Lemma Inv_alloc (s s' : CentrifugeSrv) (ch : CentrifugeLiveChannel) :
  Channel.shutdownCallback ch = None →
  open s' ⊆ open s → scopes s' = scopes s → inits s' = inits s →
  uncaught s' = uncaught s →
  core <$> heap s' = core <$> (heap s ++ [ch]) →
  Inv s → Inv s'.
Proof.
  intros Hcb Ho Hs Hi Hu Hh HI.
  apply (Inv_weaken (map_heap (λ h, h ++ [ch]) s)); try done.
  destruct HI as [I1 I2 I3 I4 I5]. split; simpl; try done.
  - intros c x [Hc|[_ Hc]]%lookup_app_Some; [by eapply I1|].
    apply list_lookup_singleton_Some in Hc as [_ <-].
    intros cb. by rewrite Hcb.
  - intros k c Hk. destruct (I2 _ _ Hk) as (x & Hx & ?).
    exists x. split; [|done]. by apply lookup_app_l_Some.
  - intros i t Ht. destruct (I3 _ _ Ht) as (x & Hx & ?).
    exists x. split; [|done]. by apply lookup_app_l_Some.
Qed.

Lemma Inv_disconnect (s : CentrifugeSrv) (c : nat) :
  Inv s → Inv (snd (disconnect c s)).
Proof.
  intros HI. munfold. destruct (heap s !! c) as [ch|] eqn:Hc; simpl; [|done].
  destruct (Channel.subscription ch), (Channel.shutdownCallback ch) as [[k]|];
    simpl; (eapply Inv_weaken; [..|exact HI]); simpl; try done;
    try apply delete_subseteq; solve_core.
Qed.

Lemma Inv_shutdownWithError (s : CentrifugeSrv) (c : nat) (e : Error) :
  Inv s → Inv (snd (shutdownWithError c e s)).
Proof.
  intros HI. unfold shutdownWithError.
  unfold mbind, M_bind, update, modify. simpl.
  apply Inv_disconnect. eapply Inv_weaken; [..|exact HI]; simpl; try done.
  solve_core.
Qed.

(** The registering branch of [getChannel]. *)
Lemma Inv_register (s s' : CentrifugeSrv) (scopeId ns path : string)
    (ch : CentrifugeLiveChannel) (st : InitState) :
  let id := Address.format scopeId ns path in
  Inv s →
  is_Some (property_get (scopes s) scopeId) →
  core ch = core (Channel.with_shutdownCallback (Some (DeleteOpen id))
                    (Channel.new id scopeId ns path)) →
  (∀ cfg ev, st ≠ AwaitBlocker cfg ev) → st ≠ InitFulfilled →
  heap s' = heap s ++ [ch] →
  open s' = <[id := length (heap s)]> (open s) →
  inits s' = inits s ++ [{| task_channel := length (heap s);
                            task_id := id; task_state := st |}] →
  scopes s' = scopes s → uncaught s' = uncaught s →
  Inv s'.
Proof.
  intros id [I1 I2 I3 I4 I5] Hsc Hcore Hst1 Hst2 Hh Ho Hi Hs Hu.
  unfold core in Hcore. simpl in Hcore.
  split.
  - rewrite Hh, Hs. intros c x [Hc|[_ Hc]]%lookup_app_Some; [by eapply I1|].
    apply list_lookup_singleton_Some in Hc as [_ <-].
    intros cb Hcb. destruct ch; simplify_eq/=. done.
  - rewrite Hh, Ho. intros k c [[<- <-]|[Hne Hk]]%lookup_insert_Some.
    + exists ch. rewrite lookup_snoc_length.
      destruct ch; simplify_eq/=. done.
    + destruct (I2 _ _ Hk) as (x & Hx & ?).
      exists x. split; [|done]. by apply lookup_app_l_Some.
  - rewrite Hh, Hi. intros i t [Ht|[_ Ht]]%lookup_app_Some.
    + destruct (I3 _ _ Ht) as (x & Hx & ?).
      exists x. split; [|done]. by apply lookup_app_l_Some.
    + apply list_lookup_singleton_Some in Ht as [_ <-]. simpl.
      exists ch. rewrite lookup_snoc_length.
      destruct ch; simplify_eq/=. split; [done|]. split; [done|].
      destruct st; simpl; try done. by destruct (Hst1 config events).
  - rewrite Hi. intros i j ti tj Hti Htj Heq.
    assert (∀ k t, inits s !! k = Some t → task_channel t < length (heap s))
      as Hlt.
    { intros k t Ht. destruct (I3 _ _ Ht) as (x & Hx & _).
      by eapply lookup_lt_Some. }
    apply lookup_app_Some in Hti as [Hti|[Hi' Hti]];
      apply lookup_app_Some in Htj as [Htj|[Hj' Htj]].
    + by eapply I4.
    + apply list_lookup_singleton_Some in Htj as [_ <-]. simpl in Heq.
      apply Hlt in Hti. lia.
    + apply list_lookup_singleton_Some in Hti as [_ <-]. simpl in Heq.
      apply Hlt in Htj. lia.
    + apply list_lookup_singleton_Some in Hti as [Hi0 _].
      apply list_lookup_singleton_Some in Htj as [Hj0 _]. lia.
  - by rewrite Hu.
Qed.

Lemma Inv_getChannel (s : CentrifugeSrv) (scopeId ns path : string) :
  Inv s → Inv (snd (getChannel scopeId ns path s)).
Proof.
  intros HI. unfold getChannel.
  unfold mbind at 1, M_bind at 1, gets at 1.
  destruct (open s !! _) as [c|] eqn:Ho; [done|].
  unfold mbind at 1, M_bind at 1, gets at 1.
  destruct (property_get (scopes s) scopeId) as [g|] eqn:Hs.
  - munfold. rewrite alter_snoc_length, lookup_snoc_length. simpl.
    destruct (call_getChannelSupport g ns) as [r|e]; simpl;
      (eapply (Inv_register s _ scopeId ns path); [exact HI|by rewrite Hs|..]);
      simpl; try done; try (by rewrite alter_snoc_length);
      intros; discriminate.
  - munfold. rewrite !alter_snoc_length, !lookup_snoc_length. simpl.
    eapply (Inv_alloc s _ (Channel.new _ scopeId ns path)); [..|exact HI];
      simpl; try done.
    by rewrite !core_fmap_alter by (by intros []).
Qed.

Lemma emit_Normal (ls : list Listener) (s : CentrifugeSrv) :
  fst (emit ls s) = Normal tt.
Proof.
  revert s. induction ls as [|l ls IH]; intros s; [done|].
  simpl. unfold mbind, M_bind. destruct l; simpl; apply IH.
Qed.

Lemma Inv_emit (ls : list Listener) (s : CentrifugeSrv) :
  Inv s → Inv (snd (emit ls s)).
Proof.
  revert s. induction ls as [|l ls IH]; intros s HI; [done|].
  simpl. unfold mbind, M_bind. destruct l; simpl; apply IH;
    (eapply Inv_weaken; [..|exact HI]); done.
Qed.

Lemma job_Normal (m : M unit) (s : CentrifugeSrv) :
  fst (m s) = Normal tt → job m s = snd (m s).
Proof. unfold job. by destruct (m s) as [[[]|] ?]. Qed.

Lemma callback_ok_stable sc f ch :
  stable f → callback_ok sc ch → callback_ok sc (f ch).
Proof.
  intros Hf H cb. destruct (Hf ch) as (-> & -> & -> & -> & ->). apply H.
Qed.

(** One segment of a channel's initialization: the channel of the task is
    updated and the promise moves on. *)
Lemma Inv_task_update (s s' : CentrifugeSrv) (i : nat) (t : InitTask)
    (ch : CentrifugeLiveChannel)
    (f : CentrifugeLiveChannel → CentrifugeLiveChannel) (st' : InitState) :
  Inv s → inits s !! i = Some t → heap s !! task_channel t = Some ch →
  heap s' = alter f (task_channel t) (heap s) →
  inits s' = alter (with_task_state st') i (inits s) →
  open s' ⊆ open s → scopes s' = scopes s → uncaught s' = uncaught s →
  stable f → publish_ok st' (f ch) →
  Inv s'.
Proof.
  intros [I1 I2 I3 I4 I5] Ht Hch Hh Hi Ho Hs Hu Hf Hp. split.
  - rewrite Hh, Hs. intros c x. rewrite list_lookup_alter.
    case_decide; [subst c|by apply I1].
    intros [y [Hy ->]]%fmap_Some. apply callback_ok_stable; [done|].
    by eapply I1.
  - rewrite Hh. intros k c Hk. eapply lookup_weaken in Hk; [|exact Ho].
    destruct (I2 _ _ Hk) as (x & Hx & Hid & Hcb).
    rewrite list_lookup_alter. case_decide; [subst c|by eauto].
    exists (f x). rewrite Hx. split; [done|].
    destruct (Hf x) as (-> & _ & _ & _ & ->). done.
  - rewrite Hh, Hi. intros j tj. rewrite list_lookup_alter.
    case_decide as Hij.
    + subst j. rewrite Ht. simpl. intros [= <-]. simpl.
      exists (f ch). rewrite list_lookup_alter_eq, Hch. split; [done|].
      split; [|done]. destruct (Hf ch) as (-> & _).
      destruct (I3 _ _ Ht) as (x & Hx & Hid & _). by simplify_eq.
    + intros Htj. destruct (I3 _ _ Htj) as (x & Hx & Hid & Hpx).
      exists x. rewrite list_lookup_alter_ne; [done|].
      intros Heq. apply Hij. by eapply I4.
  - rewrite Hi. intros j k tj tk Hj Hk Heq.
    assert (∀ n tn, alter (with_task_state st') i (inits s) !! n = Some tn →
              ∃ t0, inits s !! n = Some t0 ∧ task_channel t0 = task_channel tn)
      as Hback.
    { intros n tn. rewrite list_lookup_alter.
      case_decide; [|by eauto]. subst n. rewrite Ht. simpl.
      intros [= <-]. eauto. }
    destruct (Hback _ _ Hj) as (tj0 & Hj0 & Ej).
    destruct (Hback _ _ Hk) as (tk0 & Hk0 & Ek).
    eapply I4; eauto. congruence.
  - by rewrite Hu.
Qed.

Ltac heap_goal :=
  simpl;
  first [ reflexivity
        | rewrite !list_alter_alter_eq; reflexivity
        | refine (eq_sym (list_alter_id (λ x, x) _ _ _)); done ].

Ltac crunch Hch :=
  repeat first [ rewrite list_lookup_alter_eq | rewrite Hch | progress simpl ].

Ltac open_goal :=
  simpl; repeat (etrans; [apply delete_subseteq|]); done.

Lemma permits_None (cfg : LiveChannelConfig) :
  canPublish cfg = None → ¬ permits cfg.
Proof. intros H (f & Hf & _). congruence. Qed.

Lemma permits_false (cfg : LiveChannelConfig) f :
  canPublish cfg = Some f → f tt = Normal false → ¬ permits cfg.
Proof. intros H H' (f' & Hf & Hf'). congruence. Qed.

Lemma permits_true (cfg : LiveChannelConfig) f :
  canPublish cfg = Some f → f tt = Normal true → permits cfg.
Proof. intros H H'. by exists f. Qed.

Ltac pub_goal :=
  simpl;
  first
    [ done
    | by (split; [done|tauto])
    | by (eexists; split; [first [reflexivity|eassumption]|]; split;
          [intros _; eapply permits_true; eauto|intros _; eauto])
    | by (eexists; split; [first [reflexivity|eassumption]|]; split;
          [intros [? ?]; congruence
          |intros ?; exfalso;
           first [eapply permits_None; by eauto
                 |eapply permits_false; by eauto]]) ].

Ltac task_update HI Ht Hch :=
  eapply Inv_task_update;
  [exact HI|exact Ht|exact Hch|heap_goal|reflexivity
  |open_goal|done|done|by intros []|pub_goal].

Lemma resume_Inv (s : CentrifugeSrv) (i : nat) :
  Inv s → Inv (job (resume i) s).
Proof.
  intros HI. unfold job, resume.
  unfold mbind at 1, M_bind at 1, gets at 1.
  destruct (inits s !! i) as [t|] eqn:Ht; [|done].
  destruct (inv_tasks s HI i t Ht) as (ch & Hch & Hid & Hp).
  destruct (task_state t) as [r|cfg ev| |e|e] eqn:Hst; try done.
  - munfold. destruct r as [[support|]|e]; crunch Hch;
      [destruct (getChannelConfig support (Channel.path ch)) as [[cfg|]|e];
       crunch Hch;
       [destruct (is_connected (centrifuge s)); crunch Hch;
        [destruct (canPublish cfg) as [f|] eqn:Hcan; crunch Hch;
         [destruct (f tt) as [[|]|e] eqn:Hf; crunch Hch|]|]|..]|..];
      task_update HI Ht Hch.
  - munfold. destruct Hp as [Hcfg Hp].
    destruct (connectionBlocker s); crunch Hch; [done|].
    destruct (canPublish cfg) as [f|] eqn:Hcan; crunch Hch;
      [destruct (f tt) as [[|]|e] eqn:Hf; crunch Hch|];
      task_update HI Ht Hch.
  - munfold. crunch Hch.
    destruct (Channel.subscription ch), (Channel.shutdownCallback ch) as [[k]|];
      crunch Hch; task_update HI Ht Hch.
Qed.

Lemma Inv_step (e : Event) (s : CentrifugeSrv) : Inv s → Inv (step e s).
Proof.
  intros HI. destruct e as [a b p|c| | | |c|c|i]; simpl.
  - by apply Inv_getChannel.
  - by apply Inv_disconnect.
  - rewrite job_Normal; [|apply emit_Normal]. apply Inv_emit.
    eapply Inv_weaken; [..|exact HI]; done.
  - rewrite job_Normal; [|apply emit_Normal]. apply Inv_emit.
    eapply Inv_weaken; [..|exact HI]; done.
  - rewrite job_Normal; [|apply emit_Normal]. by apply Inv_emit.
  - unfold job. munfold. destruct (heap s !! c) as [ch|]; [|done].
    destruct (Channel.subscription ch); [|done]. simpl.
    eapply Inv_weaken; [..|exact HI]; try done. solve_core.
  - unfold job. munfold. destruct (heap s !! c) as [ch|]; [|done].
    destruct (Channel.subscription ch); [|done]. simpl.
    eapply Inv_weaken; [..|exact HI]; try done. solve_core.
  - by apply resume_Inv.
Qed.

Lemma Inv_run (es : list Event) (s : CentrifugeSrv) : Inv s → Inv (run es s).
Proof.
  revert s. induction es as [|e es IH]; intros s HI; [done|].
  simpl. apply IH. by apply Inv_step.
Qed.

(** *** Frame rules *)

Section Keeps.
Context {V : Type} (π : CentrifugeSrv → V).

Lemma keeps_ret {A} (a : A) : keeps π (mret a).
Proof. done. Qed.

Lemma keeps_throw {A} (e : Error) : keeps π (@throw A e).
Proof. done. Qed.

Lemma keeps_gets {A} (f : CentrifugeSrv → A) : keeps π (gets f).
Proof. done. Qed.

Lemma keeps_call {A} (c : Completion A) : keeps π (call c).
Proof. done. Qed.

Lemma keeps_deref (c : nat) : keeps π (deref c).
Proof. intros s. unfold deref. by destruct (heap s !! c). Qed.

Lemma keeps_modify (f : CentrifugeSrv → CentrifugeSrv) :
  (∀ s, π (f s) = π s) → keeps π (modify f).
Proof. intros H s. apply H. Qed.

Lemma keeps_bind {A B} (m : M A) (k : A → M B) :
  keeps π m → (∀ a, keeps π (k a)) → keeps π (m ≫= k).
Proof.
  intros Hm Hk s. unfold mbind, M_bind.
  specialize (Hm s). destruct (m s) as [[a|e] s1]; simpl in *; [|done].
  by rewrite Hk.
Qed.

Lemma keeps_async (m : M InitState) : keeps π m → keeps π (async m).
Proof.
  intros Hm s. unfold async. specialize (Hm s).
  by destruct (m s) as [[a|e] s1].
Qed.

Lemma keeps_job (m : M unit) :
  keeps π m → (∀ f s, π (map_uncaught f s) = π s) →
  ∀ s, π (job m s) = π s.
Proof.
  intros Hm Hu s. unfold job. specialize (Hm s).
  destruct (m s) as [[a|e] s1]; simpl in *; [done|]. by rewrite Hu.
Qed.
End Keeps.

Ltac keeps_step :=
  match goal with
  | |- keeps _ (mbind _ _) => apply keeps_bind
  | |- keeps _ (mret _) => apply keeps_ret
  | |- keeps _ (throw _) => apply keeps_throw
  | |- keeps _ (gets _) => apply keeps_gets
  | |- keeps _ (call _) => apply keeps_call
  | |- keeps _ (deref _) => apply keeps_deref
  | |- keeps _ (async _) => apply keeps_async
  | |- keeps _ (modify _) => apply keeps_modify; intros; reflexivity
  | |- keeps _ (match ?x with _ => _ end) => destruct x
  | |- keeps _ _ =>
      progress unfold getChannel, getErrorChannel, shutdownWithError,
        disconnect, new_CentrifugeLiveChannel, update, run_callback,
        unsubscribe, initalize, initChannel, initChannel_resolved,
        initChannel_connected, centrifuge_subscribe, isConnected, resume,
        set_task_state, subscription_event, await
  | |- ∀ _, _ => intros ?
  end.

Ltac keeps_tac := repeat keeps_step.

(** Channel events leave the transport's side of the service alone. *)
Lemma channel_event_transport_view (e : Event) (s : CentrifugeSrv) :
  channel_event e = true → transport_view (step e s) = transport_view s.
Proof.
  intros He. destruct e as [a b p|c| | | |c|c|i]; try done;
    unfold step, consumer_call.
  - revert s. change (keeps transport_view (getChannel a b p)). keeps_tac.
  - revert s. change (keeps transport_view (disconnect c)). keeps_tac.
  - apply keeps_job; [|done]. keeps_tac.
  - apply keeps_job; [|done]. keeps_tac.
  - apply keeps_job; [|done]. keeps_tac.
Qed.

Lemma listeners_ok_new (connected : bool) (g d p : GrafanaLiveScope) :
  listeners_ok (new_CentrifugeSrv connected g d p).
Proof. unfold listeners_ok. destruct connected; simpl; auto. Qed.

Lemma step_connectionState (e : Event) (s : CentrifugeSrv) :
  listeners_ok s →
  listeners_ok (step e s)
  ∧ connectionState (step e s)
    = match e with
      | TransportConnect => subject_next true (connectionState s)
      | TransportDisconnect => subject_next false (connectionState s)
      | _ => connectionState s
      end.
Proof.
  intros (Hc & Hd & Hp).
  destruct (channel_event e) eqn:He.
  - pose proof (channel_event_transport_view e s He) as Hv.
    unfold transport_view, listeners_ok in *.
    injection Hv as _ Hv1 Hv2 Hv3 Hv4 _.
    rewrite Hv1, Hv2, Hv3, Hv4. by destruct e.
  - destruct e; try done; unfold listeners_ok; simpl;
      unfold job; munfold.
    + destruct Hc as [Hc|Hc]; rewrite Hc; simpl; rewrite ?Hc, ?Hd, ?Hp;
        simpl; auto.
    + rewrite Hd; simpl; rewrite Hp; auto.
    + rewrite Hp; simpl; rewrite Hd; auto.
Qed.

Lemma transport_log_cons (e : Event) (es : list Event) :
  transport_log (e :: es)
  = match e with
    | TransportConnect => true :: transport_log es
    | TransportDisconnect => false :: transport_log es
    | _ => transport_log es
    end.
Proof. by destruct e. Qed.

Lemma run_connectionState (es : list Event) (s : CentrifugeSrv) :
  listeners_ok s →
  connectionState (run es s) = replay (connectionState s) (transport_log es).
Proof.
  revert s. induction es as [|e es IH]; intros s Hs; [done|].
  destruct (step_connectionState e s Hs) as [Hs' Hc].
  simpl run. rewrite (IH _ Hs'), Hc, transport_log_cons. by destruct e.
Qed.

Lemma replay_emitted (b : BehaviorSubject bool) (vs : list bool) :
  emitted (replay b vs) = emitted b ++ vs.
Proof.
  revert b. induction vs as [|v vs IH]; intros b; simpl.
  - by rewrite app_nil_r.
  - rewrite IH. simpl. by rewrite <- app_assoc.
Qed.

(** C7: the connection state is a subject fed by the transport's callbacks
    alone: over any run of the service it holds the replay of [true] for
    every connect callback and [false] for every disconnect callback, in
    order; [getConnectionState] exposes that subject; and no channel event
    (a [getChannel] call, a channel's disconnect, its subscription events,
    a segment of its initialization) changes it. *)
Theorem connectionState_follows_transport (connected : bool)
    (g d p : GrafanaLiveScope) (es : list Event) :
  let s := run es (new_CentrifugeSrv connected g d p) in
  connectionState s
  = replay (new_BehaviorSubject connected) (transport_log es)
  ∧ emitted (connectionState s) = transport_log es
  ∧ connectionState (step TransportConnect s)
    = subject_next true (connectionState s)
  ∧ connectionState (step TransportDisconnect s)
    = subject_next false (connectionState s)
  ∧ getConnectionState s = (Normal (connectionState s), s)
  ∧ ∀ e, channel_event e = true →
         connectionState (step e s) = connectionState s.
Proof.
  intros s.
  assert (connectionState s
          = replay (new_BehaviorSubject connected) (transport_log es)) as H.
  { unfold s. rewrite run_connectionState by apply listeners_ok_new.
    by destruct connected. }
  assert (listeners_ok s) as Hl.
  { unfold s. clear H. generalize (listeners_ok_new connected g d p).
    generalize (new_CentrifugeSrv connected g d p).
    induction es as [|e es IH]; intros s0 H0; [done|].
    simpl. apply IH. by apply step_connectionState. }
  split; [done|]. split; [by rewrite H, replay_emitted|].
  split; [apply (step_connectionState TransportConnect s Hl)|].
  split; [apply (step_connectionState TransportDisconnect s Hl)|].
  split; [done|].
  intros e He. destruct (step_connectionState e s Hl) as [_ ->].
  by destruct e.
Qed.

Lemma never_connected_new (g d p : GrafanaLiveScope) :
  never_connected (new_CentrifugeSrv false g d p).
Proof. split; simpl; done. Qed.

Ltac forall_goal :=
  simpl; rewrite ?alter_snoc_length;
  repeat first
    [ assumption
    | apply Forall_alter; [|by (intros [] ? ?; simpl; first [done|discriminate])]
    | apply Forall_app_2
    | by (apply Forall_singleton; simpl; first [done|discriminate]) ].

Ltac nc_leaf H :=
  destruct H; split; simpl; try done; forall_goal.

Lemma never_connected_step (e : Event) (s : CentrifugeSrv) :
  e ≠ TransportConnect → never_connected s → never_connected (step e s).
Proof.
  intros He H.
  pose proof (nc_disconnected s H) as Hdis.
  pose proof (nc_blocker s H) as Hbl.
  pose proof (nc_channels s H) as Hchs.
  destruct e as [a b p|c| | | |c|c|i]; try done; unfold step, job, consumer_call.
  - munfold. destruct (open s !! _); [done|].
    destruct (property_get (scopes s) a) as [g|]; simpl;
      rewrite ?alter_snoc_length, ?lookup_snoc_length; simpl.
    + destruct (call_getChannelSupport g b); simpl; nc_leaf H.
    + nc_leaf H.
  - munfold. destruct (heap s !! c) as [ch|] eqn:Hc; simpl; [|done].
    rewrite (Forall_lookup_1 _ _ _ _ Hchs Hc). simpl.
    destruct (Channel.shutdownCallback ch) as [[k]|]; simpl; nc_leaf H.
  - munfold. rewrite (nc_disconnect s H). simpl. nc_leaf H.
  - munfold. rewrite (nc_publish s H). simpl. nc_leaf H.
  - munfold. destruct (heap s !! c) as [ch|] eqn:Hc; simpl; [|done].
    rewrite (Forall_lookup_1 _ _ _ _ Hchs Hc). done.
  - munfold. destruct (heap s !! c) as [ch|] eqn:Hc; simpl; [|done].
    rewrite (Forall_lookup_1 _ _ _ _ Hchs Hc). done.
  - unfold resume. unfold mbind at 1, M_bind at 1, gets at 1.
    destruct (inits s !! i) as [t|] eqn:Ht; [|done].
    destruct (task_state t) as [r|cfg ev| |e|e] eqn:Hst; try done.
    + munfold.
      destruct r as [[support|]|e]; simpl;
        [destruct (heap s !! task_channel t) as [ch|] eqn:Hch; simpl;
         [destruct (getChannelConfig support (Channel.path ch)) as [[cfg|]|e];
          simpl; rewrite ?Hdis; simpl|]
        |destruct (heap s !! task_channel t) as [ch|] eqn:Hch; simpl|];
        nc_leaf H.
    + munfold. by rewrite Hbl.
    + munfold.
      destruct (alter _ _ _ !! _) as [ch|] eqn:Hch; simpl; [|nc_leaf H].
      assert (Channel.subscription ch = None) as ->.
      { rewrite list_lookup_alter_eq in Hch.
        destruct (heap s !! task_channel t) as [ch0|] eqn:Hch0; [|done].
        simpl in Hch. injection Hch as <-. simpl.
        exact (Forall_lookup_1 _ _ _ _ Hchs Hch0). }
      destruct (Channel.shutdownCallback ch) as [[k]|]; simpl; nc_leaf H.
Qed.

(** *** What [getChannel] does, branch by branch *)

Lemma getChannel_registered (s : CentrifugeSrv) (scopeId ns path : string)
    (c : nat) :
  open s !! Address.format scopeId ns path = Some c →
  getChannel scopeId ns path s = (Normal c, s).
Proof. intros H. unfold Address.format in H. munfold. by rewrite H. Qed.

Lemma getChannel_fresh (s : CentrifugeSrv) (scopeId ns path : string)
    (g : ScopeValue) :
  open s !! Address.format scopeId ns path = None →
  property_get (scopes s) scopeId = Some g →
  getChannel scopeId ns path s
  = (Normal (length (heap s)), registered s scopeId ns path (started g ns)).
Proof.
  intros Ho Hs. unfold Address.format in Ho. unfold registered, started.
  munfold. rewrite Ho, Hs. simpl.
  rewrite alter_snoc_length, lookup_snoc_length. simpl.
  unfold map_inits, map_open, map_heap, Address.format. simpl.
  destruct (call_getChannelSupport g ns); simpl; by rewrite alter_snoc_length.
Qed.

Lemma getChannel_invalid_scope (s : CentrifugeSrv) (scopeId ns path : string) :
  open s !! Address.format scopeId ns path = None →
  property_get (scopes s) scopeId = None →
  getChannel scopeId ns path s
  = (Normal (length (heap s)),
     map_heap (λ h, h ++ [error_channel "invalid scope"
                            (Address.format scopeId ns path) scopeId ns path])
       s).
Proof.
  intros Ho Hs. unfold Address.format in Ho. unfold error_channel.
  munfold. rewrite Ho, Hs. simpl.
  rewrite !alter_snoc_length, lookup_snoc_length. simpl.
  unfold map_heap, Address.format. simpl. by rewrite !alter_snoc_length.
Qed.

(** *** Who deletes from the registry *)

Lemma keeps_emit {V} (π : CentrifugeSrv → V) (ls : list Listener) :
  (∀ l, keeps π (invoke l)) → keeps π (emit ls).
Proof.
  intros H. induction ls as [|l ls IH]; [done|].
  simpl. apply keeps_bind; [apply H|done].
Qed.



Lemma disconnect_open (s : CentrifugeSrv) (c : nat) :
  open (snd (disconnect c s))
  = match heap s !! c with
    | Some ch =>
        match Channel.shutdownCallback ch with
        | Some (DeleteOpen k) => delete k (open s)
        | None => open s
        end
    | None => open s
    end.
Proof.
  munfold. destruct (heap s !! c) as [ch|]; simpl; [|done].
  by destruct (Channel.subscription ch),
       (Channel.shutdownCallback ch) as [[k]|].
Qed.






(** *** The first-connect wait point *)

Lemma never_connected_run (es : list Event) (s : CentrifugeSrv) :
  TransportConnect ∉ es → never_connected s → never_connected (run es s).
Proof.
  revert s. induction es as [|e es IH]; intros s Hes H; [done|].
  simpl. apply not_elem_of_cons in Hes as [He Hes].
  apply IH; [done|]. apply never_connected_step; [congruence|done].
Qed.

Lemma keeps_blocker_resolved (ls : list Listener) (s : CentrifugeSrv) :
  connectionBlocker s = Resolved →
  connectionBlocker (snd (emit ls s)) = Resolved.
Proof.
  revert s. induction ls as [|l ls IH]; intros s H; [done|].
  simpl. unfold mbind, M_bind. destruct l; simpl; by apply IH.
Qed.

Lemma step_blocker_resolved (e : Event) (s : CentrifugeSrv) :
  connectionBlocker s = Resolved → connectionBlocker (step e s) = Resolved.
Proof.
  intros H. destruct (channel_event e) eqn:He.
  - pose proof (channel_event_transport_view e s He) as Hv.
    unfold transport_view in Hv. injection Hv as _ _ _ _ _ Hv. congruence.
  - destruct e; try done; simpl; rewrite job_Normal by apply emit_Normal;
      by apply keeps_blocker_resolved.
Qed.

Lemma run_blocker_resolved (es : list Event) (s : CentrifugeSrv) :
  connectionBlocker s = Resolved → connectionBlocker (run es s) = Resolved.
Proof.
  revert s. induction es as [|e es IH]; intros s H; [done|].
  simpl. by apply IH, step_blocker_resolved.
Qed.

(** C3, as the code has it: until the transport's first connect event
    fires, no channel has a subscription attached and no initialization
    has completed; an initialization that reached the connection check is
    parked on the one [connectionBlocker] promise and resuming it does
    nothing; the first connect event resolves that promise, for all of them
    at once, and it stays resolved through every later event (so a channel
    created during a later disconnection does not wait again). *)
Theorem no_subscription_before_first_connect (g d p : GrafanaLiveScope)
    (es : list Event) :
  TransportConnect ∉ es →
  let s := run es (new_CentrifugeSrv false g d p) in
  subscribe_calls (centrifuge s) = []
  ∧ (∀ c ch, heap s !! c = Some ch → Channel.subscription ch = None)
  ∧ (∀ i t, inits s !! i = Some t → task_state t ≠ InitFulfilled)
  ∧ connectionBlocker s = Unresolved
  ∧ (∀ i t cfg ev, inits s !! i = Some t →
       task_state t = AwaitBlocker cfg ev → step (Resume i) s = s)
  ∧ ∀ es', connectionBlocker (run es' (step TransportConnect s)) = Resolved.
Proof.
  intros Hes s.
  assert (never_connected s) as H.
  { apply never_connected_run; [done|apply never_connected_new]. }
  split; [apply H|]. split.
  { intros c ch Hc. exact (Forall_lookup_1 _ _ _ _ (nc_channels s H) Hc). }
  split.
  { intros i t Ht. exact (Forall_lookup_1 _ _ _ _ (nc_tasks s H) Ht). }
  split; [apply H|]. split.
  - intros i t cfg ev Ht Hst. unfold step, job, resume.
    unfold mbind, M_bind, gets. rewrite Ht, Hst, (nc_blocker s H). done.
  - intros es'. apply run_blocker_resolved.
    unfold step. rewrite job_Normal by apply emit_Normal.
    unfold transport_connect, mbind, M_bind, modify, gets. simpl.
    rewrite (nc_connect s H). simpl. unfold mbind, M_bind. simpl. done.
Qed.

Lemma no_subscription_before_first_connect_witness :
  let s := run [GetChannel "grafana" "testdata" "random-2s-stream";
                Resume 0; TransportDisconnect; Resume 0]
             Sample.srv in
  subscribe_calls (centrifuge s) = [] ∧ connectionBlocker s = Unresolved.
Proof.
  pose proof (no_subscription_before_first_connect
                Sample.grafanaLiveCoreFeatures Sample.unsupported
                Sample.unsupported
                [GetChannel "grafana" "testdata" "random-2s-stream";
                 Resume 0; TransportDisconnect; Resume 0]) as H.
  simpl in H. destruct H as (H1 & _ & _ & H2 & _).
  - intros Hin. repeat (apply elem_of_cons in Hin as [Hin|Hin]; [discriminate|]).
    by apply elem_of_nil in Hin.
  - split; [exact H1|exact H2].
Defined.

(** C3, as stated, fails after a disconnection that follows the first
    connection: the channel is created while the transport is not
    connected, no connect event follows, and yet its subscription is
    attached. *)
Lemma subscription_attached_while_disconnected :
  let s := run [TransportConnect; TransportDisconnect] Sample.srv in
  let call := getChannel "grafana" "testdata" "random-2s-stream" s in
  let post := [Resume 0; Resume 0] in
  let s' := run post (snd call) in
  is_connected (centrifuge s) = false
  ∧ heap s = [] ∧ fst call = Normal 0
  ∧ (TransportConnect ∉ post)
  ∧ is_connected (centrifuge s') = false
  ∧ (Channel.subscription <$> (heap s' !! 0))
    = Some (Some (SubscriptionOf "grafana/testdata/random-2s-stream" 0))
  ∧ subscribe_calls (centrifuge s')
    = [SubscriptionOf "grafana/testdata/random-2s-stream" 0].
Proof.
  repeat split; try (vm_compute; reflexivity).
  intros Hin. repeat (apply elem_of_cons in Hin as [Hin|Hin]; [discriminate|]).
  by apply elem_of_nil in Hin.
Qed.

(** *** Failures of the initialization *)

Lemma keeps_inits_resolved (c : nat) (r : Settled (option LiveChannelSupport)) :
  keeps inits (initChannel_resolved c r).
Proof. keeps_tac. Qed.

Lemma keeps_inits_connected (c : nat) (cfg : LiveChannelConfig) (ev : nat) :
  keeps inits (initChannel_connected c cfg ev).
Proof. keeps_tac. Qed.

(** A segment that throws rejects the promise; nothing reaches the event
    loop. *)
Lemma segment_rejects (m : M InitState) (s : CentrifugeSrv) (i : nat)
    (t : InitTask) (e : Error) :
  keeps inits m → inits s !! i = Some t → fst (m s) = Throw e →
  inits (job (st ← async m; set_task_state i st) s) !! i
  = Some (with_task_state (InitRejected e) t).
Proof.
  intros Hk Ht Hm. unfold job, mbind, M_bind, async, set_task_state, modify.
  specialize (Hk s). destruct (m s) as [[st|e'] s1]; simpl in *; [done|].
  simplify_eq. by rewrite list_lookup_alter_eq, Hk, Ht.
Qed.

Lemma resume_AwaitSupport (s : CentrifugeSrv) (i : nat) (t : InitTask)
    (r : Settled (option LiveChannelSupport)) :
  inits s !! i = Some t → task_state t = AwaitSupport r →
  step (Resume i) s
  = job (st ← async (initChannel_resolved (task_channel t) r);
         set_task_state i st) s.
Proof.
  intros Ht Hst. unfold step, job, resume.
  unfold mbind at 1, M_bind at 1, gets at 1. by rewrite Ht, Hst.
Qed.

Lemma resume_AwaitBlocker (s : CentrifugeSrv) (i : nat) (t : InitTask)
    (cfg : LiveChannelConfig) (ev : nat) :
  inits s !! i = Some t → task_state t = AwaitBlocker cfg ev →
  connectionBlocker s = Resolved →
  step (Resume i) s
  = job (st ← async (initChannel_connected (task_channel t) cfg ev);
         set_task_state i st) s.
Proof.
  intros Ht Hst Hb. unfold step, job, resume.
  unfold mbind at 1, M_bind at 1, gets at 1. rewrite Ht, Hst.
  unfold mbind at 1, M_bind at 1, gets at 1. by rewrite Hb.
Qed.

Lemma resume_settled (s : CentrifugeSrv) (i : nat) (t : InitTask) :
  inits s !! i = Some t →
  (task_state t = InitFulfilled ∨ ∃ e, task_state t = InitHandled e) →
  step (Resume i) s = s.
Proof.
  intros Ht Hst. unfold step, job, resume, mbind, M_bind, gets.
  rewrite Ht. by destruct Hst as [->|[e ->]].
Qed.

Lemma resume_catch (s : CentrifugeSrv) (i : nat) (t : InitTask) (e : Error) :
  inits s !! i = Some t → task_state t = InitRejected e →
  step (Resume i) s
  = job (shutdownWithError (task_channel t) e;;
         modify (map_open (delete (task_id t)));;
         set_task_state i (InitHandled e)) s.
Proof.
  intros Ht Hst. unfold step, job, resume.
  unfold mbind at 1, M_bind at 1, gets at 1. by rewrite Ht, Hst.
Qed.

(** The [catch] handler of [getChannel]. *)
Lemma resume_InitRejected (s : CentrifugeSrv) (i : nat) (t : InitTask)
    (e : Error) :
  Inv s → inits s !! i = Some t → task_state t = InitRejected e →
  let s' := step (Resume i) s in
  inits s' !! i = Some (with_task_state (InitHandled e) t)
  ∧ (∃ ch, heap s' !! task_channel t = Some ch
           ∧ Channel.id ch = task_id t
           ∧ state (Channel.currentStatus ch) = Shutdown
           ∧ error (Channel.currentStatus ch) = Some e)
  ∧ open s' !! task_id t = None
  ∧ uncaught s' = [].
Proof.
  intros HI Ht Hst.
  destruct (inv_tasks s HI i t Ht) as (ch & Hch & Hid & _).
  pose proof (inv_uncaught s HI) as Hu.
  rewrite (resume_catch s i t e Ht Hst). unfold job.
  munfold. crunch Hch.
  destruct (Channel.subscription ch), (Channel.shutdownCallback ch) as [[k]|];
    crunch Hch; rewrite ?list_lookup_alter_eq, ?Ht, ?Hch; simpl.
  all: split; [done|].
  all: split; [by eauto|].
  all: split; [by rewrite lookup_delete_eq|done].
Qed.

(** C2: whatever the initialization of a channel raises, in any of its
    segments, rejects the promise of [initChannel]; the [catch] handler
    that [getChannel] attached then shuts the channel down with that error
    and deletes its id from the registry; nothing is left for the event
    loop as an unhandled error.  The synchronous part is contained too: a
    call of [scope.getChannelSupport] that throws inside [getChannel] (the
    resolver throws, or the value found in [scopes] has no such method)
    makes the promise rejected, and [getChannel] still returns the
    channel. *)
Theorem init_failure_contained (connected : bool) (g d p : GrafanaLiveScope)
    (es : list Event) (i : nat) (e : Error) :
  let s := run es (new_CentrifugeSrv connected g d p) in
  raises s i e →
  let s' := run [Resume i; Resume i] s in
  (∃ t ch, inits s' !! i = Some t
           ∧ task_state t = InitHandled e
           ∧ heap s' !! task_channel t = Some ch
           ∧ Channel.id ch = task_id t
           ∧ state (Channel.currentStatus ch) = Shutdown
           ∧ error (Channel.currentStatus ch) = Some e
           ∧ open s' !! task_id t = None)
  ∧ uncaught (step (Resume i) s) = []
  ∧ uncaught s' = []
  ∧ ∀ scopeId ns path scope e0,
      open s !! Address.format scopeId ns path = None →
      property_get (scopes s) scopeId = Some scope →
      call_getChannelSupport scope ns = Throw e0 →
      ∃ c s1, getChannel scopeId ns path s = (Normal c, s1)
              ∧ raises s1 (length (inits s)) e0.
Proof.
  intros s Hr s'.
  assert (Inv s) as HI by apply Inv_run, Inv_new.
  assert (Inv (step (Resume i) s)) as HI1 by by apply Inv_step.
  assert (Inv s') as HI2 by by apply Inv_step.
  split; [|split; [apply HI1|split; [apply HI2|]]].
  - destruct Hr as (t & Ht & Hr).
    assert (∀ m, keeps inits m → fst (m s) = Throw e →
              step (Resume i) s = job (st ← async m; set_task_state i st) s →
              ∃ t' ch, inits s' !! i = Some t' ∧ task_state t' = InitHandled e
                ∧ heap s' !! task_channel t' = Some ch
                ∧ Channel.id ch = task_id t'
                ∧ state (Channel.currentStatus ch) = Shutdown
                ∧ error (Channel.currentStatus ch) = Some e
                ∧ open s' !! task_id t' = None) as Hseg.
    { intros m Hk Hm Hstep.
      pose proof (segment_rejects m s i t e Hk Ht Hm) as Ht1.
      rewrite <- Hstep in Ht1.
      destruct (resume_InitRejected _ i _ e HI1 Ht1 eq_refl)
        as (Ht2 & (ch & Hch & Hid & Hst & Herr) & Ho & _).
      eexists _, ch. split; [exact Ht2|]. simpl. done. }
    destruct (task_state t) as [r|cfg ev| |e'|e'] eqn:Hst; try done.
    + apply (Hseg _ (keeps_inits_resolved _ _) Hr).
      by apply resume_AwaitSupport.
    + destruct Hr as [Hb Hr].
      apply (Hseg _ (keeps_inits_connected _ _ _) Hr).
      by apply resume_AwaitBlocker.
    + subst e'.
      destruct (resume_InitRejected s i t e HI Ht Hst)
        as (Ht1 & (ch & Hch & Hid & Hsd & Herr) & Ho & _).
      assert (s' = step (Resume i) s) as Hs'.
      { unfold s'. change (run [Resume i; Resume i] s)
          with (step (Resume i) (step (Resume i) s)).
        apply (resume_settled _ i _ Ht1). right. by exists e. }
      rewrite Hs'. eexists _, ch. split; [exact Ht1|]. simpl. done.
  - intros scopeId ns path scope e0 Ho Hs Hthrow.
    eexists _, _. rewrite (getChannel_fresh _ _ _ _ _ Ho Hs).
    split; [done|]. unfold raises, registered, started. simpl.
    rewrite lookup_snoc_length, Hthrow. eexists. split; [done|]. done.
Qed.

(** *** Shutdown and re-creation *)

Lemma keeps_scopes_invoke (l : Listener) : keeps scopes (invoke l).
Proof. destruct l; unfold invoke; keeps_tac. Qed.

Lemma step_scopes (e : Event) (s : CentrifugeSrv) :
  scopes (step e s) = scopes s.
Proof.
  destruct e; unfold step, consumer_call.
  - revert s. change (keeps scopes (getChannel scopeId namespace path)).
    keeps_tac.
  - revert s. change (keeps scopes (disconnect channel)). keeps_tac.
  - apply keeps_job; [|done]. unfold transport_connect. keeps_tac.
    apply keeps_emit, keeps_scopes_invoke.
  - apply keeps_job; [|done]. unfold transport_disconnect. keeps_tac.
    apply keeps_emit, keeps_scopes_invoke.
  - apply keeps_job; [|done]. unfold transport_publish. keeps_tac.
    apply keeps_emit, keeps_scopes_invoke.
  - apply keeps_job; [|done]. keeps_tac.
  - apply keeps_job; [|done]. keeps_tac.
  - apply keeps_job; [|done]. keeps_tac.
Qed.

Lemma run_scopes (es : list Event) (s : CentrifugeSrv) :
  scopes (run es s) = scopes s.
Proof.
  revert s. induction es as [|e es IH]; intros s; [done|].
  simpl. by rewrite IH, step_scopes.
Qed.

(** [disconnect()] on a channel that [getChannel] registered, and the next
    [getChannel] for its address. *)
Lemma disconnect_then_getChannel (s : CentrifugeSrv) (c : nat)
    (ch : CentrifugeLiveChannel) :
  heap s !! c = Some ch →
  Channel.shutdownCallback ch = Some (DeleteOpen (Channel.id ch)) →
  Channel.id ch
  = Address.format (Channel.scope ch) (Channel.namespace ch)
      (Channel.path ch) →
  is_Some (property_get (scopes s) (Channel.scope ch)) →
  let s1 := snd (disconnect c s) in
  open s1 !! Channel.id ch = None
  ∧ (∃ ch1, heap s1 !! c = Some ch1
            ∧ state (Channel.currentStatus ch1) = Shutdown
            ∧ error (Channel.currentStatus ch1)
              = error (Channel.currentStatus ch))
  ∧ ∃ c' s2 ch',
      getChannel (Channel.scope ch) (Channel.namespace ch)
        (Channel.path ch) s1 = (Normal c', s2)
      ∧ c' ≠ c ∧ heap s1 !! c' = None
      ∧ open s2 !! Channel.id ch = Some c'
      ∧ heap s2 !! c' = Some ch'
      ∧ Channel.id ch' = Channel.id ch
      ∧ Channel.currentStatus ch'
        = {| status_id := Channel.id ch; state := Pending; error := None |}
      ∧ Channel.subscription ch' = None.
Proof.
  intros Hc Hcb Hid [g Hg] s1.
  assert (open s1 = delete (Channel.id ch) (open s)) as Ho.
  { unfold s1. by rewrite disconnect_open, Hc, Hcb. }
  assert (scopes s1 = scopes s) as Hs.
  { assert (keeps scopes (disconnect c)) as Hk by keeps_tac. apply Hk. }
  assert (∃ ch1, heap s1 !! c = Some ch1
            ∧ state (Channel.currentStatus ch1) = Shutdown
            ∧ error (Channel.currentStatus ch1)
              = error (Channel.currentStatus ch)
            ∧ length (heap s1) = length (heap s)) as (ch1 & Hc1 & Hst & Her & Hlen).
  { unfold s1. munfold. rewrite Hc. simpl. rewrite Hcb.
    destruct (Channel.subscription ch); simpl;
      rewrite ?list_lookup_alter_eq, Hc; simpl;
      rewrite ?length_alter; eauto. }
  split; [by rewrite Ho, lookup_delete_eq|]. split; [by eauto|].
  assert (open s1 !! Address.format (Channel.scope ch) (Channel.namespace ch)
                       (Channel.path ch) = None) as Ho1.
  { by rewrite <- Hid, Ho, lookup_delete_eq. }
  rewrite <- Hs in Hg.
  eexists _, _, _. rewrite (getChannel_fresh _ _ _ _ _ Ho1 Hg).
  split; [done|].
  apply lookup_lt_Some in Hc as Hlt.
  split; [lia|]. split; [by apply lookup_ge_None_2|].
  simpl. rewrite <- Hid, lookup_insert_eq, lookup_snoc_length. done.
Qed.

(** C5: after [disconnect()] of a registered channel, or its shutdown with
    an error, its id maps to nothing in the registry and the channel is in
    [Shutdown]; the next [getChannel] for its address allocates a new
    channel, distinct from it, in [Pending], and registers it under the
    id. *)
Theorem disconnect_then_fresh (connected : bool) (g d p : GrafanaLiveScope)
    (es : list Event) (c : nat) (ch : CentrifugeLiveChannel)
    (s1 : CentrifugeSrv) :
  let s := run es (new_CentrifugeSrv connected g d p) in
  heap s !! c = Some ch →
  is_Some (Channel.shutdownCallback ch) →
  s1 = step (ChannelDisconnect c) s
  ∨ (∃ e, s1 = snd (shutdownWithError c e s)) →
  open s1 !! Channel.id ch = None
  ∧ (∃ ch1, heap s1 !! c = Some ch1
            ∧ state (Channel.currentStatus ch1) = Shutdown)
  ∧ ∃ c' s2 ch',
      getChannel (Channel.scope ch) (Channel.namespace ch)
        (Channel.path ch) s1 = (Normal c', s2)
      ∧ c' ≠ c ∧ heap s1 !! c' = None
      ∧ open s2 !! Channel.id ch = Some c'
      ∧ heap s2 !! c' = Some ch'
      ∧ Channel.id ch' = Channel.id ch
      ∧ Channel.currentStatus ch'
        = {| status_id := Channel.id ch; state := Pending; error := None |}
      ∧ Channel.subscription ch' = None.
Proof.
  intros s Hc [cb Hcb] Hs1.
  assert (Inv s) as HI by apply Inv_run, Inv_new.
  destruct (inv_callbacks s HI c ch Hc cb Hcb) as (-> & Hid & Hsc).
  destruct Hs1 as [->|[e ->]].
  - destruct (disconnect_then_getChannel s c ch Hc Hcb Hid Hsc)
      as (H1 & (ch1 & ? & ? & _) & H3).
    split; [done|]. split; [by eauto|done].
  - unfold shutdownWithError, mbind, M_bind, update, modify. simpl.
    set (s0 := map_heap _ s).
    assert (heap s0 !! c
            = Some (Channel.with_status (Channel.set_error e) ch)) as Hc0.
    { unfold s0. simpl. by rewrite list_lookup_alter_eq, Hc. }
    destruct (disconnect_then_getChannel s0 c _ Hc0 Hcb Hid Hsc)
      as (H1 & (ch1 & ? & ? & _) & H3).
    split; [done|]. split; [by eauto|done].
Qed.

(** *** The publish capability *)

(** C6: for every channel whose initialization has completed (the promise
    of its [initChannel] is fulfilled), [publish] is defined exactly when
    the resolved config declares [canPublish] and the predicate answered
    [true]; otherwise the field is absent. *)
Theorem publish_iff_permitted (connected : bool) (g d p : GrafanaLiveScope)
    (es : list Event) (i : nat) (t : InitTask) (ch : CentrifugeLiveChannel) :
  let s := run es (new_CentrifugeSrv connected g d p) in
  inits s !! i = Some t →
  task_state t = InitFulfilled →
  heap s !! task_channel t = Some ch →
  ∃ cfg, Channel.config ch = Some cfg
         ∧ (is_Some (Channel.publish ch) ↔ permits cfg)
         ∧ (¬ permits cfg → Channel.publish ch = None).
Proof.
  intros s Ht Hst Hch.
  assert (Inv s) as HI by apply Inv_run, Inv_new.
  destruct (inv_tasks s HI i t Ht) as (ch' & Hch' & _ & Hp).
  rewrite Hst in Hp. simplify_eq. destruct Hp as (cfg & Hcfg & Hiff).
  exists cfg. split; [done|]. split; [done|].
  intros Hn. destruct (Channel.publish ch) eqn:Hpub; [|done].
  destruct Hn. apply Hiff. by eexists.
Qed.

(** *** Scopes that the lookup does not find *)

Lemma format_scope_inj (a b c a' b' c' : string) :
  Address.has_separator a = false → Address.has_separator a' = false →
  Address.format a b c = Address.format a' b' c' → a = a'.
Proof.
  intros Ha Ha' Heq. apply (f_equal Address.segments) in Heq.
  unfold Address.format in Heq.
  rewrite (segments_append _ _ Ha), (segments_append _ _ Ha') in Heq.
  congruence.
Qed.

Lemma inherited_separator_free (v : string) :
  v ∈ Object_prototype_keys → Address.has_separator v = false.
Proof.
  unfold Object_prototype_keys. intros Hv.
  repeat (apply elem_of_cons in Hv as [->|Hv]; [reflexivity|]).
  by apply elem_of_nil in Hv.
Qed.

(** What the lookup in [scopes] finds is found under a name without a
    separator: the three own keys and the inherited names have none. *)
Lemma new_scopes_separator_free (connected : bool) (g d p : GrafanaLiveScope)
    (v : string) :
  is_Some (property_get (scopes (new_CentrifugeSrv connected g d p)) v) →
  Address.has_separator v = false.
Proof.
  unfold property_get.
  destruct (scopes (new_CentrifugeSrv connected g d p) !! v) as [x|] eqn:Hx.
  - intros _. revert Hx. unfold new_CentrifugeSrv. destruct connected; simpl;
      intros Hx;
      repeat (apply lookup_insert_Some in Hx as [[<- _]|[_ Hx]]; [done|]);
      by rewrite lookup_empty in Hx.
  - case_bool_decide as Hv; [|by intros [? ?]].
    intros _. by apply inherited_separator_free.
Qed.

(** In a reachable state no id is registered whose scope has no separator
    and is not found by the lookup in [scopes]. *)
Lemma unknown_scope_unregistered (connected : bool) (g d p : GrafanaLiveScope)
    (es : list Event) (scopeId ns path : string) :
  let s := run es (new_CentrifugeSrv connected g d p) in
  property_get (scopes s) scopeId = None →
  Address.has_separator scopeId = false →
  open s !! Address.format scopeId ns path = None.
Proof.
  intros s Hs Hsep.
  assert (Inv s) as HI by apply Inv_run, Inv_new.
  destruct (open s !! _) as [c|] eqn:Ho; [|done]. exfalso.
  destruct (inv_open s HI _ _ Ho) as (ch & Hch & Hid & Hcb).
  destruct (inv_callbacks s HI _ _ Hch _ Hcb) as (_ & Hfmt & Hsc).
  assert (Address.has_separator (Channel.scope ch) = false) as Hsep'.
  { apply (new_scopes_separator_free connected g d p).
    unfold s in Hsc. by rewrite run_scopes in Hsc. }
  rewrite Hid in Hfmt.
  apply (format_scope_inj _ _ _ _ _ _ Hsep Hsep') in Hfmt. subst scopeId.
  rewrite Hs in Hsc. by destruct Hsc.
Qed.

(** C9, as the code has it: for a scope that the lookup [this.scopes[scopeId]]
    does not find (it is none of the three own keys and none of the names
    inherited from [Object.prototype]) and whose id is not registered at
    the time of the call (always so when the scope contains no separator),
    [getChannel] returns a new channel, shut down with the error
    [invalid scope], and leaves the registry and the initialization promises
    as they were; a second call for the same address returns another new
    channel. *)
Theorem invalid_scope_error_channel (connected : bool)
    (g d p : GrafanaLiveScope) (es : list Event) (scopeId ns path : string) :
  let s := run es (new_CentrifugeSrv connected g d p) in
  let id := Address.format scopeId ns path in
  property_get (scopes s) scopeId = None →
  open s !! id = None ∨ Address.has_separator scopeId = false →
  ∃ s1 s2 ch,
    getChannel scopeId ns path s = (Normal (length (heap s)), s1)
    ∧ heap s1 = heap s ++ [ch]
    ∧ state (Channel.currentStatus ch) = Shutdown
    ∧ error (Channel.currentStatus ch) = Some "invalid scope"
    ∧ Channel.shutdownCallback ch = None
    ∧ open s1 = open s ∧ inits s1 = inits s
    ∧ getChannel scopeId ns path s1 = (Normal (S (length (heap s))), s2)
    ∧ open s2 = open s.
Proof.
  intros s id Hs Hor.
  assert (open s !! id = None) as Ho.
  { destruct Hor as [?|Hsep]; [done|].
    by apply unknown_scope_unregistered. }
  eexists _, _, _. rewrite (getChannel_invalid_scope _ _ _ _ Ho Hs).
  split; [done|]. simpl. split; [done|]. split; [done|]. split; [done|].
  split; [done|]. split; [done|]. split; [done|].
  rewrite getChannel_invalid_scope by done. simpl.
  rewrite length_app. simpl. rewrite Nat.add_1_r. done.
Qed.

(** C9, as stated, fails in two ways.  When the id of the unknown scope is
    the id of a registered channel, the registry lookup comes before the
    scope check, and both calls return that registered, pending channel.
    And a scope that is none of the three registered ones but names a
    property inherited from [Object.prototype], such as [constructor],
    passes the scope check: the call registers a pending channel, and the
    second call returns the same instance. *)
Lemma invalid_scope_returns_registered :
  let s := step (GetChannel "ds" "a" "b/c") Sample.srv in
  let call1 := getChannel "constructor" "a" "b" Sample.srv in
  let call2 := getChannel "constructor" "a" "b" (snd call1) in
  (scopes s !! "ds/a" = None
   ∧ property_get (scopes s) "ds/a" = None
   ∧ open s !! "ds/a/b/c" = Some 0
   ∧ fst (getChannel "ds/a" "b" "c" s) = Normal 0
   ∧ fst (getChannel "ds/a" "b" "c" (snd (getChannel "ds/a" "b" "c" s)))
     = Normal 0
   ∧ ((λ ch, state (Channel.currentStatus ch)) <$> (heap s !! 0))
     = Some Pending)
  ∧ (scopes Sample.srv !! "constructor" = None
     ∧ fst call1 = Normal 0
     ∧ open (snd call1) !! "constructor/a/b" = Some 0
     ∧ ((λ ch, state (Channel.currentStatus ch)) <$> (heap (snd call1) !! 0))
       = Some Pending
     ∧ fst call2 = Normal 0).
Proof. repeat split; vm_compute; reflexivity. Qed.

(** *** Totality *)

(** C10: [getChannel] returns a channel for every input, in every reachable
    state, and never throws; the channel exists in the object store; the
    call leaves at most one new promise behind, suspended at its first
    [await] or already rejected, and nothing for the event loop to report. *)
Theorem getChannel_total (connected : bool) (g d p : GrafanaLiveScope)
    (es : list Event) (scopeId ns path : string) :
  let s := run es (new_CentrifugeSrv connected g d p) in
  ∃ c s', getChannel scopeId ns path s = (Normal c, s')
          ∧ is_Some (heap s' !! c)
          ∧ uncaught s' = uncaught s
          ∧ (inits s' = inits s
             ∨ ∃ scope, property_get (scopes s) scopeId = Some scope
                 ∧ inits s'
                   = inits s
                     ++ [{| task_channel := c;
                            task_id := Address.format scopeId ns path;
                            task_state := started scope ns |}]).
Proof.
  intros s.
  assert (Inv s) as HI by apply Inv_run, Inv_new.
  destruct (open s !! Address.format scopeId ns path) as [c|] eqn:Ho.
  - exists c, s. rewrite (getChannel_registered _ _ _ _ _ Ho).
    destruct (inv_open s HI _ _ Ho) as (ch & Hch & _).
    split; [done|]. split; [by eauto|]. split; [done|]. by left.
  - destruct (property_get (scopes s) scopeId) as [scope|] eqn:Hs.
    + eexists _, _. rewrite (getChannel_fresh _ _ _ _ _ Ho Hs).
      split; [done|]. simpl. rewrite lookup_snoc_length.
      split; [by eauto|]. split; [done|]. right. by exists scope.
    + eexists _, _. rewrite (getChannel_invalid_scope _ _ _ _ Ho Hs).
      split; [done|]. simpl. rewrite lookup_snoc_length.
      split; [by eauto|]. split; [done|]. by left.
Qed.

(** *** Malformed addresses *)

(** C4, as the code has it: [getChannel] does not validate the segments.
    For an address with an empty segment or a separator inside a segment
    it still returns a channel and raises nothing; when the lookup in
    [scopes] finds the scope and the id is not registered, that channel is
    a new one, in [Pending] with no error, registered under the
    concatenated id. *)
Theorem getChannel_accepts_malformed (s : CentrifugeSrv)
    (scopeId ns path : string) :
  Address.valid_segment scopeId && Address.valid_segment ns
  && Address.valid_segment path = false →
  ∃ c s', getChannel scopeId ns path s = (Normal c, s')
          ∧ (is_Some (property_get (scopes s) scopeId) →
             open s !! Address.format scopeId ns path = None →
             c = length (heap s)
             ∧ open s' !! Address.format scopeId ns path = Some c
             ∧ ∃ ch, heap s' !! c = Some ch
                     ∧ Channel.currentStatus ch
                       = {| status_id := Address.format scopeId ns path;
                            state := Pending; error := None |}).
Proof.
  intros _.
  destruct (open s !! Address.format scopeId ns path) as [c|] eqn:Ho.
  - exists c, s. rewrite (getChannel_registered _ _ _ _ _ Ho).
    split; [done|]. intros _ ?. done.
  - destruct (property_get (scopes s) scopeId) as [scope|] eqn:Hs.
    + eexists _, _. rewrite (getChannel_fresh _ _ _ _ _ Ho Hs).
      split; [done|]. intros _ _. simpl.
      rewrite lookup_insert_eq, lookup_snoc_length. eauto.
    + eexists _, _. rewrite (getChannel_invalid_scope _ _ _ _ Ho Hs).
      split; [done|]. by intros [? ?].
Qed.

(** C4, as stated, fails: an empty namespace and a path with a separator
    are accepted, and the call returns a pending channel registered under
    the id [grafana//a/b]; no error is raised. *)
Lemma malformed_address_accepted :
  let call := getChannel "grafana" "" "a/b" Sample.srv in
  Address.valid_segment "" = false
  ∧ Address.valid_segment "a/b" = false
  ∧ fst call = Normal 0
  ∧ open (snd call) !! "grafana//a/b" = Some 0
  ∧ (Channel.currentStatus <$> (heap (snd call) !! 0))
    = Some {| status_id := "grafana//a/b"; state := Pending; error := None |}.
Proof. repeat split; vm_compute; reflexivity. Qed.

(** *** Instances on the sample environment *)


Lemma init_failure_contained_witness :
  let s := run [GetChannel "ds" "x" "y"] Sample.srv in
  raises s 0 "xdoes not support streaming"
  ∧ uncaught (run [Resume 0; Resume 0] s) = [].
Proof.
  assert (raises (run [GetChannel "ds" "x" "y"] Sample.srv) 0
            "xdoes not support streaming") as H.
  { eexists. split; [vm_compute; reflexivity|]. vm_compute. reflexivity. }
  split; [exact H|].
  exact (proj1 (proj2 (proj2
    (init_failure_contained false Sample.grafanaLiveCoreFeatures
       Sample.unsupported Sample.unsupported [GetChannel "ds" "x" "y"] 0
       "xdoes not support streaming" H)))).
Defined.

Lemma getChannel_accepts_malformed_witness :
  Address.valid_segment "grafana" && Address.valid_segment ""
  && Address.valid_segment "a/b" = false
  ∧ ∃ c s', getChannel "grafana" "" "a/b" Sample.srv = (Normal c, s').
Proof.
  split; [reflexivity|].
  destruct (getChannel_accepts_malformed Sample.srv "grafana" "" "a/b"
              eq_refl) as (c & s' & H & _).
  by exists c, s'.
Defined.

Lemma disconnect_then_fresh_witness :
  let s := run [GetChannel "grafana" "testdata" "random-2s-stream"]
             Sample.srv in
  let s1 := step (ChannelDisconnect 0) s in
  open s1 !! "grafana/testdata/random-2s-stream" = None
  ∧ ∃ c' s2, getChannel "grafana" "testdata" "random-2s-stream" s1
             = (Normal c', s2) ∧ c' ≠ 0.
Proof.
  set (ch := Channel.with_shutdownCallback
               (Some (DeleteOpen "grafana/testdata/random-2s-stream"))
               (Channel.new "grafana/testdata/random-2s-stream" "grafana"
                  "testdata" "random-2s-stream")).
  destruct (disconnect_then_fresh false Sample.grafanaLiveCoreFeatures
              Sample.unsupported Sample.unsupported
              [GetChannel "grafana" "testdata" "random-2s-stream"] 0 ch
              (step (ChannelDisconnect 0)
                 (run [GetChannel "grafana" "testdata" "random-2s-stream"]
                    Sample.srv)))
    as (H1 & _ & (c' & s2 & ch' & H2 & H3 & _)).
  - vm_compute. reflexivity.
  - eexists. reflexivity.
  - left. reflexivity.
  - split; [exact H1|]. exists c', s2. split; [exact H2|exact H3].
Defined.

Lemma publish_iff_permitted_witness :
  let s := run [GetChannel "grafana" "testdata" "random-2s-stream";
                TransportConnect; Resume 0] Sample.srv in
  let t := {| task_channel := 0;
              task_id := "grafana/testdata/random-2s-stream";
              task_state := InitFulfilled |} in
  inits s !! 0 = Some t
  ∧ ∃ ch cfg, heap s !! 0 = Some ch
              ∧ Channel.config ch = Some cfg
              ∧ (is_Some (Channel.publish ch) ↔ permits cfg).
Proof.
  intros s t.
  assert (inits s !! 0 = Some t) as Ht by (vm_compute; reflexivity).
  split; [exact Ht|].
  destruct (heap s !! 0) as [ch|] eqn:Hch; [|vm_compute in Hch; discriminate].
  destruct (publish_iff_permitted false Sample.grafanaLiveCoreFeatures
              Sample.unsupported Sample.unsupported
              [GetChannel "grafana" "testdata" "random-2s-stream";
               TransportConnect; Resume 0] 0 t ch Ht eq_refl Hch)
    as (cfg & Hcfg & Hiff & _).
  exists ch, cfg. split; [reflexivity|]. split; [exact Hcfg|exact Hiff].
Defined.

Lemma connectionState_follows_transport_witness :
  let s := run [TransportConnect; GetChannel "grafana" "testdata" "x";
                TransportDisconnect; TransportConnect] Sample.srv in
  emitted (connectionState s) = [true; false; true]
  ∧ connectionState (step (Resume 0) s) = connectionState s.
Proof.
  destruct (connectionState_follows_transport false
              Sample.grafanaLiveCoreFeatures Sample.unsupported
              Sample.unsupported
              [TransportConnect; GetChannel "grafana" "testdata" "x";
               TransportDisconnect; TransportConnect])
    as (_ & H2 & _ & _ & _ & H6).
  split; [exact H2|]. apply H6. reflexivity.
Defined.

Lemma invalid_scope_error_channel_witness :
  property_get (scopes Sample.srv) "stream" = None
  ∧ Address.has_separator "stream" = false
  ∧ ∃ s1 s2,
      getChannel "stream" "a" "b" Sample.srv = (Normal 0, s1)
      ∧ getChannel "stream" "a" "b" s1 = (Normal 1, s2)
      ∧ open s2 = open Sample.srv.
Proof.
  assert (property_get (scopes Sample.srv) "stream" = None) as H
    by (vm_compute; reflexivity).
  split; [exact H|]. split; [reflexivity|].
  destruct (invalid_scope_error_channel false Sample.grafanaLiveCoreFeatures
              Sample.unsupported Sample.unsupported [] "stream" "a" "b" H
              (or_intror eq_refl))
    as (s1 & s2 & ch & H1 & _ & _ & _ & _ & _ & _ & H2 & H3).
  exists s1, s2. split; [exact H1|]. split; [exact H2|exact H3].
Defined.

(** ** Further properties of the service *)

(** *** Messages from server-side channels *)

Lemma listeners_ok_run (es : list Event) (s : CentrifugeSrv) :
  listeners_ok s → listeners_ok (run es s).
Proof.
  revert s. induction es as [|e es IH]; intros s H; [done|].
  simpl. apply IH. by apply step_connectionState.
Qed.

(** X1: a publication from a server-side channel is logged and otherwise
    ignored: in every reachable state the [publish] callback of the
    transport leaves the whole service state as it is. *)
Theorem server_publish_ignored (connected : bool) (g d p : GrafanaLiveScope)
    (es : list Event) :
  let s := run es (new_CentrifugeSrv connected g d p) in
  step ServerPublish s = s.
Proof.
  intros s.
  assert (listeners_ok s) as (_ & _ & Hp)
    by apply listeners_ok_run, listeners_ok_new.
  unfold step, job, transport_publish, mbind, M_bind, gets.
  by rewrite Hp.
Qed.

(** *** [isConnected] and the connection state *)

Lemma replay_value (b : BehaviorSubject bool) (vs : list bool) :
  subject_value (replay b vs) = default (subject_value b) (last vs).
Proof.
  revert b. induction vs as [|v vs IH]; intros b; [done|].
  change (replay b (v :: vs)) with (replay (subject_next v b) vs).
  rewrite IH, last_cons. by destruct (last vs).
Qed.

Lemma step_agree (e : Event) (s : CentrifugeSrv) :
  listeners_ok s →
  subject_value (connectionState s) = is_connected (centrifuge s) →
  subject_value (connectionState (step e s))
  = is_connected (centrifuge (step e s)).
Proof.
  intros (Hc & Hd & Hp) Ha.
  destruct (channel_event e) eqn:He.
  - pose proof (channel_event_transport_view e s He) as Hv.
    unfold transport_view in Hv. injection Hv as Hv1 _ _ _ Hv5 _.
    by rewrite Hv1, Hv5.
  - destruct e; try done; unfold step, job; munfold.
    + destruct Hc as [Hc|Hc]; rewrite Hc; done.
    + rewrite Hd. done.
    + rewrite Hp. done.
Qed.

(** X2: [isConnected()] and the connection-state subject never disagree:
    in every reachable state the subject holds the value that
    [isConnected()] returns, which is the last callback of the transport
    ([true] for connect, [false] for disconnect), or the answer at
    construction when there was none.  The call changes nothing. *)
Theorem isConnected_agrees_with_connectionState (connected : bool)
    (g d p : GrafanaLiveScope) (es : list Event) :
  let s := run es (new_CentrifugeSrv connected g d p) in
  isConnected s = (Normal (subject_value (connectionState s)), s)
  ∧ subject_value (connectionState s)
    = default connected (last (transport_log es)).
Proof.
  intros s. split.
  - unfold isConnected, gets. f_equal. f_equal. symmetry. unfold s.
    assert (listeners_ok (new_CentrifugeSrv connected g d p)) as Hl
      by apply listeners_ok_new.
    assert (subject_value (connectionState (new_CentrifugeSrv connected g d p))
            = is_connected (centrifuge (new_CentrifugeSrv connected g d p)))
      as Ha by by destruct connected.
    revert Hl Ha. generalize (new_CentrifugeSrv connected g d p).
    induction es as [|e es IH]; intros s0 Hl Ha; [done|].
    simpl. apply IH; [by apply step_connectionState|by apply step_agree].
  - unfold s. rewrite run_connectionState by apply listeners_ok_new.
    rewrite replay_value. by destruct connected.
Qed.

(** *** The connection blocker *)

Lemma blocker_shape_new (connected : bool) (g d p : GrafanaLiveScope) :
  blocker_shape (new_CentrifugeSrv connected g d p).
Proof. unfold blocker_shape. by destruct connected. Qed.

Lemma step_blocker_shape (e : Event) (s : CentrifugeSrv) :
  blocker_shape s →
  blocker_shape (step e s)
  ∧ (connectionBlocker (step e s) = Resolved
     ↔ connectionBlocker s = Resolved ∨ e = TransportConnect).
Proof.
  intros (Hc & Hd & Hp).
  destruct (channel_event e) eqn:He.
  - pose proof (channel_event_transport_view e s He) as Hv.
    unfold transport_view in Hv. injection Hv as _ Hv2 Hv3 Hv4 _ Hv6.
    unfold blocker_shape. rewrite Hv2, Hv3, Hv4, Hv6.
    split; [done|]. split; [by left|]. intros [?| ->]; done.
  - destruct e; try done; unfold blocker_shape, step, job; munfold.
    + rewrite Hc. destruct (connectionBlocker s) eqn:Hb; simpl;
        rewrite ?Hc, ?Hb, ?Hd, ?Hp; simpl; split; try done;
        split; auto.
    + rewrite Hd. simpl. rewrite Hc, Hd, Hp.
      split; [done|]. split; [by left|]. intros [?|?]; done.
    + rewrite Hp. simpl. rewrite Hc, Hd, Hp.
      split; [done|]. split; [by left|]. intros [?|?]; done.
Qed.

Lemma run_blocker_shape (es : list Event) (s : CentrifugeSrv) :
  blocker_shape s →
  blocker_shape (run es s)
  ∧ (connectionBlocker (run es s) = Resolved
     ↔ connectionBlocker s = Resolved ∨ TransportConnect ∈ es).
Proof.
  revert s. induction es as [|e es IH]; intros s Hs.
  - split; [done|]. split; [by left|]. intros [?|Hin]; [done|].
    by apply elem_of_nil in Hin.
  - destruct (step_blocker_shape e s Hs) as [Hs' He].
    destruct (IH _ Hs') as [Hr Hiff]. simpl. split; [done|].
    rewrite Hiff, He, elem_of_cons. split.
    + intros [[?| ->]|?]; auto.
    + intros [?|[<-|?]]; auto.
Qed.

(** X3: the connection blocker is resolved exactly when the transport
    was connected at construction or a connect event has fired since; the
    listener that resolves it is registered on the transport exactly while
    it is unresolved, and is gone afterwards. *)
Theorem connectionBlocker_resolved_iff (connected : bool)
    (g d p : GrafanaLiveScope) (es : list Event) :
  let s := run es (new_CentrifugeSrv connected g d p) in
  (connectionBlocker s = Resolved
   ↔ connected = true ∨ TransportConnect ∈ es)
  ∧ (connectListener ∈ connect_listeners (centrifuge s)
     ↔ connectionBlocker s = Unresolved)
  ∧ onConnect ∈ connect_listeners (centrifuge s).
Proof.
  intros s.
  destruct (run_blocker_shape es _ (blocker_shape_new connected g d p))
    as [(Hc & _ & _) Hiff].
  fold s in Hc, Hiff. split.
  - rewrite Hiff. by destruct connected; split; intros [?|?]; auto.
  - rewrite Hc. destruct (connectionBlocker s); split.
    + split; [done|]. intros _. apply list_elem_of_here.
    + apply list_elem_of_further, list_elem_of_here.
    + split; [|done]. intros Hin. by apply list_elem_of_singleton in Hin.
    + apply list_elem_of_here.
Qed.

(** *** The scopes record *)

Lemma new_scopes_lookup (connected : bool) (g d p : GrafanaLiveScope)
    (k : string) :
  scopes (new_CentrifugeSrv connected g d p) !! k
  = if decide (k = "plugin") then Some p
    else if decide (k = "ds") then Some d
    else if decide (k = "grafana") then Some g
    else None.
Proof.
  unfold new_CentrifugeSrv. destruct connected; simpl;
    repeat (rewrite lookup_insert; case_decide; [by subst; repeat case_decide|]);
    rewrite lookup_empty; by repeat case_decide.
Qed.

(** X12: the scopes record is fixed at construction and no event changes
    it: in every reachable state [this.scopes[k]] is the resolver of the
    constructor for each of the three values of [LiveChannelScope], the
    inherited member for each name that the record inherits from
    [Object.prototype], and [undefined] for every other key. *)
Theorem scopes_fixed (connected : bool) (g d p : GrafanaLiveScope)
    (es : list Event) (k : string) :
  let s := run es (new_CentrifugeSrv connected g d p) in
  scopes s = scopes (new_CentrifugeSrv connected g d p)
  ∧ property_get (scopes s) k
    = if decide (k = "plugin") then Some (ScopeObject p)
      else if decide (k = "ds") then Some (ScopeObject d)
      else if decide (k = "grafana") then Some (ScopeObject g)
      else if decide (k ∈ Object_prototype_keys)
           then Some (InheritedMember k)
           else None.
Proof.
  intros s. unfold s. rewrite run_scopes. split; [done|].
  unfold property_get. rewrite new_scopes_lookup.
  repeat (case_decide; [done|]).
  case_bool_decide; by case_decide.
Qed.

(** *** The registry *)

(** X4: in every reachable state each entry of the registry leads to an
    existing channel whose id is the key, the key is the formatted address
    of that channel, the lookup of the channel's scope in [scopes] finds
    something (a resolver or an inherited member), and the channel's
    shutdown callback deletes exactly that key; so no channel is registered
    under two ids. *)
Theorem registry_wellformed (connected : bool) (g d p : GrafanaLiveScope)
    (es : list Event) (k : string) (c : nat) :
  let s := run es (new_CentrifugeSrv connected g d p) in
  open s !! k = Some c →
  ∃ ch, heap s !! c = Some ch
        ∧ Channel.id ch = k
        ∧ k = Address.format (Channel.scope ch) (Channel.namespace ch)
                (Channel.path ch)
        ∧ is_Some (property_get (scopes s) (Channel.scope ch))
        ∧ Channel.shutdownCallback ch = Some (DeleteOpen k)
        ∧ ∀ k', open s !! k' = Some c → k' = k.
Proof.
  intros s Hk.
  assert (Inv s) as HI by apply Inv_run, Inv_new.
  destruct (inv_open s HI k c Hk) as (ch & Hch & Hid & Hcb).
  destruct (inv_callbacks s HI c ch Hch _ Hcb) as (_ & Hfmt & Hsc).
  exists ch. split; [done|]. split; [done|]. split; [congruence|].
  split; [done|]. split; [done|].
  intros k' Hk'. destruct (inv_open s HI k' c Hk') as (ch' & Hch' & Hid' & _).
  congruence.
Qed.

Lemma tasks_bounded (s : CentrifugeSrv) :
  Inv s → length (inits s) ≤ length (heap s).
Proof.
  intros HI.
  pose proof (inv_tasks_distinct s HI) as Hd.
  pose proof (inv_tasks s HI) as Ht.
  assert (NoDup (task_channel <$> inits s)) as Hnd.
  { apply NoDup_alt. intros i j c.
    rewrite !list_lookup_fmap.
    intros [ti [Hi ->]]%fmap_Some [tj [Hj Heq]]%fmap_Some.
    by eapply Hd. }
  assert (task_channel <$> inits s ⊆ seq 0 (length (heap s))) as Hsub.
  { intros c [t [-> Hin]]%list_elem_of_fmap.
    apply list_elem_of_lookup in Hin as [i Hi].
    destruct (Ht _ _ Hi) as (ch & Hch & _).
    apply elem_of_seq. apply lookup_lt_Some in Hch. lia. }
  pose proof (submseteq_length _ _ (NoDup_submseteq _ _ Hnd Hsub)) as Hlen.
  by rewrite length_fmap, length_seq in Hlen.
Qed.

(** X6: initialization is started once per channel: in every reachable
    state two different promises of [initChannel] never belong to the same
    channel, each belongs to an existing channel and has captured that
    channel's id for its [catch] handler, and there are never more promises
    than channels. *)
Theorem one_init_per_channel (connected : bool) (g d p : GrafanaLiveScope)
    (es : list Event) (i j : nat) (ti tj : InitTask) :
  let s := run es (new_CentrifugeSrv connected g d p) in
  inits s !! i = Some ti → inits s !! j = Some tj →
  (task_channel ti = task_channel tj → i = j)
  ∧ (∃ ch, heap s !! task_channel ti = Some ch
           ∧ Channel.id ch = task_id ti)
  ∧ length (inits s) ≤ length (heap s).
Proof.
  intros s Hi Hj.
  assert (Inv s) as HI by apply Inv_run, Inv_new.
  split; [by apply (inv_tasks_distinct s HI i j ti tj)|].
  split; [|by apply tasks_bounded].
  destruct (inv_tasks s HI i ti Hi) as (ch & Hch & Hid & _). eauto.
Qed.

(** X5: [getChannel] only ever adds: whatever the input and the state, the
    registrations, the channel objects and the promises that were there are
    still there, unchanged, after the call, and the transport, the
    connection state, the blocker and the scopes record are untouched. *)
Theorem getChannel_only_adds (s : CentrifugeSrv) (scopeId ns path : string) :
  let s' := snd (getChannel scopeId ns path s) in
  open s ⊆ open s'
  ∧ heap s `prefix_of` heap s'
  ∧ inits s `prefix_of` inits s'
  ∧ centrifuge s' = centrifuge s
  ∧ connectionState s' = connectionState s
  ∧ connectionBlocker s' = connectionBlocker s
  ∧ scopes s' = scopes s
  ∧ uncaught s' = uncaught s.
Proof.
  intros s'. unfold s'.
  destruct (open s !! Address.format scopeId ns path) as [c|] eqn:Ho.
  - rewrite (getChannel_registered _ _ _ _ _ Ho). simpl. done.
  - destruct (property_get (scopes s) scopeId) as [scope|] eqn:Hs.
    + rewrite (getChannel_fresh _ _ _ _ _ Ho Hs). simpl.
      split; [by apply insert_subseteq|].
      split; [by apply prefix_app_r|]. split; [by apply prefix_app_r|]. done.
    + rewrite (getChannel_invalid_scope _ _ _ _ Ho Hs). simpl.
      split; [done|]. split; [by apply prefix_app_r|]. done.
Qed.

(** *** Ids *)

Lemma append_separator_inj (a a' r r' : string) :
  Address.has_separator a = false → Address.has_separator a' = false →
  a +:+ "/" +:+ r = a' +:+ "/" +:+ r' → a = a' ∧ r = r'.
Proof.
  revert a'. induction a as [|x a IH]; intros [|x' a'] Ha Ha' Heq;
    simpl in *.
  - by simplify_eq.
  - injection Heq as <- _. done.
  - injection Heq as -> _. done.
  - injection Heq as -> Heq.
    apply orb_false_iff in Ha as [_ Ha]. apply orb_false_iff in Ha' as [_ Ha'].
    destruct (IH _ Ha Ha' Heq) as [-> ->]. done.
Qed.

(** X11: the id determines the address when scope and namespace contain
    no separator (the path may contain some): two such addresses with the
    same id are the same address. *)
Theorem format_injective (a b c a' b' c' : string) :
  Address.has_separator a = false → Address.has_separator b = false →
  Address.has_separator a' = false → Address.has_separator b' = false →
  Address.format a b c = Address.format a' b' c' →
  a = a' ∧ b = b' ∧ c = c'.
Proof.
  intros Ha Hb Ha' Hb' Heq. unfold Address.format in Heq.
  destruct (append_separator_inj _ _ _ _ Ha Ha' Heq) as [-> Heq'].
  destruct (append_separator_inj _ _ _ _ Hb Hb' Heq') as [-> ->]. done.
Qed.

(** *** The turns of an initialization *)

Lemma resume_support_throws (s s1 : CentrifugeSrv) (i : nat) (t : InitTask)
    (r : Settled (option LiveChannelSupport)) (e : Error) :
  inits s !! i = Some t → task_state t = AwaitSupport r →
  initChannel_resolved (task_channel t) r s = (Throw e, s1) →
  step (Resume i) s
  = map_inits (alter (with_task_state (InitRejected e)) i) s1.
Proof.
  intros Ht Hst Hm. rewrite (resume_AwaitSupport s i t r Ht Hst).
  unfold job, mbind, M_bind, async, set_task_state, modify. by rewrite Hm.
Qed.

Lemma resume_support_returns (s s1 : CentrifugeSrv) (i : nat) (t : InitTask)
    (r : Settled (option LiveChannelSupport)) (st : InitState) :
  inits s !! i = Some t → task_state t = AwaitSupport r →
  initChannel_resolved (task_channel t) r s = (Normal st, s1) →
  step (Resume i) s = map_inits (alter (with_task_state st) i) s1.
Proof.
  intros Ht Hst Hm. rewrite (resume_AwaitSupport s i t r Ht Hst).
  unfold job, mbind, M_bind, async, set_task_state, modify. by rewrite Hm.
Qed.

(** The channel after the last segment of its initialization. *)
Lemma initChannel_connected_returns (s : CentrifugeSrv) (c ev : nat)
    (ch : CentrifugeLiveChannel) (cfg : LiveChannelConfig) (b : bool) :
  heap s !! c = Some ch → can_publish cfg = Normal b →
  ∃ s1, initChannel_connected c cfg ev s = (Normal InitFulfilled, s1)
        ∧ heap s1
          = alter (λ x, Channel.with_subscription
                          (Some (SubscriptionOf (Channel.id ch) ev))
                          (if b
                           then Channel.with_publish
                                  (Some (PublishVia (Channel.id ch))) x
                           else x)) c (heap s)
        ∧ subscribe_calls (centrifuge s1)
          = subscribe_calls (centrifuge s)
            ++ [SubscriptionOf (Channel.id ch) ev]
        ∧ open s1 = open s ∧ inits s1 = inits s
        ∧ uncaught s1 = uncaught s
        ∧ transport_view s1 = transport_view s.
Proof.
  intros Hch Hcan. unfold can_publish in Hcan. munfold.
  destruct (canPublish cfg) as [f|]; [rewrite Hcan|injection Hcan as <-];
    simpl; [destruct b; simpl|]; crunch Hch; eexists; (split; [done|]);
    simpl; rewrite ?list_alter_alter_eq; done.
Qed.

(** X7: a namespace without streaming support.  When the promise of
    [getChannelSupport] settles with [undefined], the next turn of the
    initialization changes nothing but the promise, which is rejected with
    the message made of the namespace followed, without a space, by
    [does not support streaming]; the turn after that leaves the channel
    shut down with that error and its id out of the registry. *)
Theorem unsupported_namespace_rejected (connected : bool)
    (g d p : GrafanaLiveScope) (es : list Event) (i : nat) (t : InitTask)
    (ch : CentrifugeLiveChannel) :
  let s := run es (new_CentrifugeSrv connected g d p) in
  inits s !! i = Some t →
  task_state t = AwaitSupport (Fulfilled None) →
  heap s !! task_channel t = Some ch →
  let e := Channel.namespace ch +:+ "does not support streaming" in
  let s1 := step (Resume i) s in
  let s2 := step (Resume i) s1 in
  s1 = map_inits (alter (with_task_state (InitRejected e)) i) s
  ∧ (∃ ch2, heap s2 !! task_channel t = Some ch2
            ∧ state (Channel.currentStatus ch2) = Shutdown
            ∧ error (Channel.currentStatus ch2) = Some e)
  ∧ open s2 !! task_id t = None.
Proof.
  intros s Ht Hst Hch e s1 s2.
  assert (Inv s) as HI by apply Inv_run, Inv_new.
  assert (s1 = map_inits (alter (with_task_state (InitRejected e)) i) s)
    as Hs1.
  { apply (resume_support_throws s s i t _ e Ht Hst).
    munfold. by rewrite Hch. }
  split; [done|].
  assert (Inv s1) as HI1 by by apply Inv_step.
  assert (inits s1 !! i = Some (with_task_state (InitRejected e) t)) as Ht1.
  { rewrite Hs1. simpl. by rewrite list_lookup_alter_eq, Ht. }
  destruct (resume_InitRejected s1 i _ e HI1 Ht1 eq_refl)
    as (_ & (ch2 & Hch2 & _ & Hsd & Herr) & Ho & _).
  split; [by eauto|done].
Qed.

(** X8: a path the namespace does not know.  When the support object has
    no config for the path, the next turn of the initialization changes
    nothing but the promise, rejected with [unknown path: ] followed by the
    path; the turn after that leaves the channel shut down with that error
    and its id out of the registry. *)
Theorem unknown_path_rejected (connected : bool)
    (g d p : GrafanaLiveScope) (es : list Event) (i : nat) (t : InitTask)
    (ch : CentrifugeLiveChannel) (support : LiveChannelSupport) :
  let s := run es (new_CentrifugeSrv connected g d p) in
  inits s !! i = Some t →
  task_state t = AwaitSupport (Fulfilled (Some support)) →
  heap s !! task_channel t = Some ch →
  getChannelConfig support (Channel.path ch) = Normal None →
  let e := "unknown path: " +:+ Channel.path ch in
  let s1 := step (Resume i) s in
  let s2 := step (Resume i) s1 in
  s1 = map_inits (alter (with_task_state (InitRejected e)) i) s
  ∧ (∃ ch2, heap s2 !! task_channel t = Some ch2
            ∧ state (Channel.currentStatus ch2) = Shutdown
            ∧ error (Channel.currentStatus ch2) = Some e)
  ∧ open s2 !! task_id t = None.
Proof.
  intros s Ht Hst Hch Hcfg e s1 s2.
  assert (Inv s) as HI by apply Inv_run, Inv_new.
  assert (s1 = map_inits (alter (with_task_state (InitRejected e)) i) s)
    as Hs1.
  { apply (resume_support_throws s s i t _ e Ht Hst).
    munfold. by rewrite Hch, Hcfg. }
  split; [done|].
  assert (Inv s1) as HI1 by by apply Inv_step.
  assert (inits s1 !! i = Some (with_task_state (InitRejected e) t)) as Ht1.
  { rewrite Hs1. simpl. by rewrite list_lookup_alter_eq, Ht. }
  destruct (resume_InitRejected s1 i _ e HI1 Ht1 eq_refl)
    as (_ & (ch2 & Hch2 & _ & Hsd & Herr) & Ho & _).
  split; [by eauto|done].
Qed.

Lemma initChannel_connected_throws (s : CentrifugeSrv) (c ev : nat)
    (cfg : LiveChannelConfig) (e : Error) :
  can_publish cfg = Throw e →
  initChannel_connected c cfg ev s = (Throw e, s).
Proof.
  intros Hcan. unfold can_publish in Hcan. unfold initChannel_connected.
  destruct (canPublish cfg) as [f|]; [|discriminate].
  unfold mbind, M_bind, call. by rewrite Hcan.
Qed.

(** X9: with the transport connected, a resolved config settles the
    initialization in one turn.  When [canPublish] is absent or answers,
    the promise is fulfilled; the channel has the config, the publish
    operation exactly when [canPublish] answered [true], and as its
    subscription the handle of the one call of [centrifuge.subscribe] that
    the turn makes, with the channel's own id and its own handlers; the
    registry is untouched.  When [canPublish] throws, the promise is
    rejected with what it threw, and nothing else has changed but the
    config stored in the channel: no call of [subscribe] is made. *)
Theorem init_completes_when_connected (s : CentrifugeSrv) (i : nat)
    (t : InitTask) (ch : CentrifugeLiveChannel)
    (support : LiveChannelSupport) (cfg : LiveChannelConfig) :
  inits s !! i = Some t →
  task_state t = AwaitSupport (Fulfilled (Some support)) →
  heap s !! task_channel t = Some ch →
  getChannelConfig support (Channel.path ch) = Normal (Some cfg) →
  is_connected (centrifuge s) = true →
  let c := task_channel t in
  let sub := SubscriptionOf (Channel.id ch) c in
  let s1 := step (Resume i) s in
  (∀ b, can_publish cfg = Normal b →
     inits s1 !! i = Some (with_task_state InitFulfilled t)
     ∧ (∃ ch1, heap s1 !! c = Some ch1
               ∧ Channel.config ch1 = Some cfg
               ∧ Channel.subscription ch1 = Some sub
               ∧ Channel.publish ch1
                 = (if b then Some (PublishVia (Channel.id ch))
                    else Channel.publish ch)
               ∧ Channel.currentStatus ch1 = Channel.currentStatus ch)
     ∧ subscribe_calls (centrifuge s1)
       = subscribe_calls (centrifuge s) ++ [sub]
     ∧ open s1 = open s)
  ∧ (∀ e, can_publish cfg = Throw e →
       s1 = map_inits (alter (with_task_state (InitRejected e)) i)
              (map_heap (alter (Channel.with_config (Some cfg)) c) s)).
Proof.
  intros Ht Hst Hch Hcfg Hcon c sub s1. subst sub c.
  set (s0 := map_heap (alter (Channel.with_config (Some cfg))
                             (task_channel t)) s).
  assert (heap s0 !! task_channel t
          = Some (Channel.with_config (Some cfg) ch)) as Hch0.
  { unfold s0. simpl. by rewrite list_lookup_alter_eq, Hch. }
  split.
  - intros b Hcan.
    destruct (initChannel_connected_returns s0 (task_channel t)
                (task_channel t) _ cfg b Hch0 Hcan)
      as (s' & Hrun & Hheap & Hsubs & Hopen & Hinits & _).
    assert (s1 = map_inits (alter (with_task_state InitFulfilled) i) s')
      as ->.
    { apply (resume_support_returns s s' i t _ _ Ht Hst).
      unfold initChannel_resolved, await, mbind, M_bind, mret, M_ret, deref,
        call, initalize, update, modify, isConnected, gets.
      rewrite Hch, Hcfg. simpl. rewrite Hcon. simpl. exact Hrun. }
    simpl. rewrite Hinits, Hheap, Hsubs, Hopen. simpl.
    rewrite !list_lookup_alter_eq, Ht, Hch. simpl.
    split; [done|]. split; [|done].
    eexists. split; [done|]. by destruct b.
  - intros e Hcan.
    apply (resume_support_throws s s0 i t _ e Ht Hst).
    unfold initChannel_resolved, await, mbind, M_bind, mret, M_ret, deref,
      call, initalize, update, modify, isConnected, gets.
    rewrite Hch, Hcfg. simpl. rewrite Hcon. simpl.
    by apply initChannel_connected_throws.
Qed.

(** X10: with the transport not connected, a resolved config parks the
    initialization: the turn stores the config in the channel and suspends
    the promise on the connection blocker, with no subscription made and
    no publish operation bound. *)
Theorem init_parks_when_disconnected (s : CentrifugeSrv) (i : nat)
    (t : InitTask) (ch : CentrifugeLiveChannel)
    (support : LiveChannelSupport) (cfg : LiveChannelConfig) :
  inits s !! i = Some t →
  task_state t = AwaitSupport (Fulfilled (Some support)) →
  heap s !! task_channel t = Some ch →
  getChannelConfig support (Channel.path ch) = Normal (Some cfg) →
  is_connected (centrifuge s) = false →
  step (Resume i) s
  = map_inits
      (alter (with_task_state (AwaitBlocker cfg (task_channel t))) i)
      (map_heap
         (alter (Channel.with_config (Some cfg)) (task_channel t)) s).
Proof.
  intros Ht Hst Hch Hcfg Hcon.
  apply (resume_support_returns s _ i t _ _ Ht Hst).
  unfold initChannel_resolved, await, mbind, M_bind, mret, M_ret, deref,
    call, initalize, update, modify, isConnected, gets.
  rewrite Hch, Hcfg. simpl. by rewrite Hcon.
Qed.

(** X13: a parked initialization is settled on its first turn after the
    blocker is resolved, whether or not the transport is still connected
    then.  When [canPublish] is absent or answers, the promise is
    fulfilled, the channel gets, when [canPublish] answered [true], its
    publish operation, and as its subscription the handle of the one call
    of [centrifuge.subscribe] that the turn makes, with the channel's id
    and the handlers made when the config was resolved.  When [canPublish]
    throws, the promise is rejected with what it threw and nothing else
    changes: no call of [subscribe] is made. *)
Theorem parked_init_completes (s : CentrifugeSrv) (i : nat)
    (t : InitTask) (ch : CentrifugeLiveChannel)
    (cfg : LiveChannelConfig) (ev : nat) :
  inits s !! i = Some t →
  task_state t = AwaitBlocker cfg ev →
  connectionBlocker s = Resolved →
  heap s !! task_channel t = Some ch →
  let c := task_channel t in
  let sub := SubscriptionOf (Channel.id ch) ev in
  let s1 := step (Resume i) s in
  (∀ b, can_publish cfg = Normal b →
     inits s1 !! i = Some (with_task_state InitFulfilled t)
     ∧ (∃ ch1, heap s1 !! c = Some ch1
               ∧ Channel.subscription ch1 = Some sub
               ∧ Channel.publish ch1
                 = (if b then Some (PublishVia (Channel.id ch))
                    else Channel.publish ch)
               ∧ Channel.currentStatus ch1 = Channel.currentStatus ch)
     ∧ subscribe_calls (centrifuge s1)
       = subscribe_calls (centrifuge s) ++ [sub]
     ∧ open s1 = open s)
  ∧ (∀ e, can_publish cfg = Throw e →
       s1 = map_inits (alter (with_task_state (InitRejected e)) i) s).
Proof.
  intros Ht Hst Hb Hch c sub s1. subst sub c. split.
  - intros b Hcan.
    destruct (initChannel_connected_returns s (task_channel t) ev ch cfg b
                Hch Hcan)
      as (s' & Hrun & Hheap & Hsubs & Hopen & Hinits & _).
    assert (s1 = map_inits (alter (with_task_state InitFulfilled) i) s')
      as ->.
    { unfold s1. rewrite (resume_AwaitBlocker s i t cfg ev Ht Hst Hb).
      unfold job, mbind, M_bind, async, set_task_state, modify.
      by rewrite Hrun. }
    simpl. rewrite Hinits, Hheap, Hsubs, Hopen.
    rewrite !list_lookup_alter_eq, Ht, Hch. simpl.
    split; [done|]. split; [|done].
    eexists. split; [done|]. by destruct b.
  - intros e Hcan. unfold s1.
    rewrite (resume_AwaitBlocker s i t cfg ev Ht Hst Hb).
    unfold job, mbind, M_bind, async, set_task_state, modify.
    by rewrite (initChannel_connected_throws s _ _ _ e Hcan).
Qed.

(** *** Channel objects keep their identity *)

Lemma extends_refl (s s' : CentrifugeSrv) : heap s' = heap s → extends s s'.
Proof. intros H c ch Hc. exists ch. by rewrite H. Qed.

Lemma extends_trans (s1 s2 s3 : CentrifugeSrv) :
  extends s1 s2 → extends s2 s3 → extends s1 s3.
Proof.
  intros H12 H23 c ch Hc.
  destruct (H12 c ch Hc) as (ch2 & Hc2 & <- & <- & <- & <-).
  exact (H23 c ch2 Hc2).
Qed.

Lemma extends_alter (s : CentrifugeSrv) (c : nat)
    (f : CentrifugeLiveChannel → CentrifugeLiveChannel) :
  (∀ x, Channel.id (f x) = Channel.id x
        ∧ Channel.scope (f x) = Channel.scope x
        ∧ Channel.namespace (f x) = Channel.namespace x
        ∧ Channel.path (f x) = Channel.path x) →
  extends s (map_heap (alter f c) s).
Proof.
  intros Hf c' ch Hc. simpl. rewrite list_lookup_alter.
  case_decide; [subst c'|]; [|exists ch; by rewrite Hc].
  exists (f ch). rewrite Hc. destruct (Hf ch) as (-> & -> & -> & ->).
  done.
Qed.

Lemma extends_snoc (s : CentrifugeSrv) (x : CentrifugeLiveChannel) :
  extends s (map_heap (λ h, h ++ [x]) s).
Proof.
  intros c ch Hc. exists ch. simpl. by rewrite (lookup_app_l_Some _ _ _ _ Hc).
Qed.

Section Grows.

Lemma grows_ret {A} (a : A) : grows (mret a).
Proof. intros s. by apply extends_refl. Qed.

Lemma grows_throw {A} (e : Error) : grows (@throw A e).
Proof. intros s. by apply extends_refl. Qed.

Lemma grows_gets {A} (f : CentrifugeSrv → A) : grows (gets f).
Proof. intros s. by apply extends_refl. Qed.

Lemma grows_call {A} (c : Completion A) : grows (call c).
Proof. intros s. by apply extends_refl. Qed.

Lemma grows_deref (c : nat) : grows (deref c).
Proof. intros s. unfold deref. destruct (heap s !! c); by apply extends_refl. Qed.

Lemma grows_modify (f : CentrifugeSrv → CentrifugeSrv) :
  (∀ s, extends s (f s)) → grows (modify f).
Proof. intros H s. apply H. Qed.

Lemma grows_bind {A B} (m : M A) (k : A → M B) :
  grows m → (∀ a, grows (k a)) → grows (m ≫= k).
Proof.
  intros Hm Hk s. unfold mbind, M_bind.
  specialize (Hm s). destruct (m s) as [[a|e] s1]; simpl in *; [|done].
  eapply extends_trans; [exact Hm|apply Hk].
Qed.

Lemma grows_async (m : M InitState) : grows m → grows (async m).
Proof.
  intros Hm s. unfold async. specialize (Hm s).
  by destruct (m s) as [[a|e] s1].
Qed.

Lemma grows_job (m : M unit) (s : CentrifugeSrv) :
  grows m → extends s (job m s).
Proof.
  intros Hm. unfold job. specialize (Hm s).
  destruct (m s) as [[a|e] s1]; simpl in *; [done|].
  eapply extends_trans; [exact Hm|by apply extends_refl].
Qed.

End Grows.

Ltac grows_step :=
  match goal with
  | |- grows (mbind _ _) => apply grows_bind
  | |- grows (mret _) => apply grows_ret
  | |- grows (throw _) => apply grows_throw
  | |- grows (gets _) => apply grows_gets
  | |- grows (call _) => apply grows_call
  | |- grows (deref _) => apply grows_deref
  | |- grows (async _) => apply grows_async
  | |- grows (modify (map_heap (alter _ _))) =>
      apply grows_modify; intros ?; apply extends_alter; by intros []
  | |- grows (modify (map_heap _)) =>
      apply grows_modify; intros ?; apply extends_snoc
  | |- grows (modify _) =>
      apply grows_modify; intros ?; by apply extends_refl
  | |- grows (match ?x with _ => _ end) => destruct x
  | |- grows _ =>
      progress unfold getChannel, getErrorChannel, shutdownWithError,
        disconnect, new_CentrifugeLiveChannel, update, run_callback,
        unsubscribe, initalize, initChannel, initChannel_resolved,
        initChannel_connected, centrifuge_subscribe, isConnected, resume,
        set_task_state, subscription_event, await, invoke,
        transport_connect, transport_disconnect, transport_publish
  | |- ∀ _, _ => intros ?
  end.

Lemma grows_emit (ls : list Listener) : grows (emit ls).
Proof.
  induction ls as [|l ls IH]; [apply grows_ret|].
  simpl. apply grows_bind; [|done]. repeat grows_step.
Qed.

Lemma step_extends (e : Event) (s : CentrifugeSrv) : extends s (step e s).
Proof.
  destruct e; unfold step, consumer_call.
  - revert s. change (grows (getChannel scopeId namespace path)).
    repeat grows_step.
  - revert s. change (grows (disconnect channel)). repeat grows_step.
  - apply grows_job. repeat grows_step. apply grows_emit.
  - apply grows_job. repeat grows_step. apply grows_emit.
  - apply grows_job. repeat grows_step. apply grows_emit.
  - apply grows_job. repeat grows_step.
  - apply grows_job. repeat grows_step.
  - apply grows_job. repeat grows_step.
Qed.

(** X14: channel objects are never dropped and their read-only fields
    never change: whatever events follow, a channel that exists keeps its
    place in the object store and its [id], [scope], [namespace] and
    [path]. *)
Theorem channel_identity_kept (s : CentrifugeSrv) (es : list Event)
    (c : nat) (ch : CentrifugeLiveChannel) :
  heap s !! c = Some ch →
  ∃ ch', heap (run es s) !! c = Some ch'
         ∧ Channel.id ch' = Channel.id ch
         ∧ Channel.scope ch' = Channel.scope ch
         ∧ Channel.namespace ch' = Channel.namespace ch
         ∧ Channel.path ch' = Channel.path ch.
Proof.
  revert s ch. induction es as [|e es IH]; intros s ch Hc; [by exists ch|].
  destruct (step_extends e s c ch Hc) as (ch1 & Hc1 & <- & <- & <- & <-).
  simpl. by apply IH.
Qed.

(** *** Where [publish] sends *)

Section Preserves.
Context (I : CentrifugeSrv → Prop).

Lemma preserves_ret {A} (a : A) : preserves I (mret a).
Proof. by intros s. Qed.

Lemma preserves_throw {A} (e : Error) : preserves I (@throw A e).
Proof. by intros s. Qed.

Lemma preserves_gets {A} (f : CentrifugeSrv → A) : preserves I (gets f).
Proof. by intros s. Qed.

Lemma preserves_call {A} (c : Completion A) : preserves I (call c).
Proof. by intros s. Qed.

Lemma preserves_deref (c : nat) : preserves I (deref c).
Proof. intros s. unfold deref. by destruct (heap s !! c). Qed.

Lemma preserves_modify (f : CentrifugeSrv → CentrifugeSrv) :
  (∀ s, I s → I (f s)) → preserves I (modify f).
Proof. intros H s. apply H. Qed.

Lemma preserves_bind {A B} (m : M A) (k : A → M B) :
  preserves I m → (∀ a, preserves I (k a)) → preserves I (m ≫= k).
Proof.
  intros Hm Hk s Hs. unfold mbind, M_bind.
  specialize (Hm s Hs). destruct (m s) as [[a|e] s1]; simpl in *; [|done].
  by apply Hk.
Qed.

Lemma preserves_async (m : M InitState) :
  preserves I m → preserves I (async m).
Proof.
  intros Hm s Hs. unfold async. specialize (Hm s Hs).
  by destruct (m s) as [[a|e] s1].
Qed.

Lemma preserves_job (m : M unit) (s : CentrifugeSrv) :
  preserves I m → (∀ f s, I s → I (map_uncaught f s)) →
  I s → I (job m s).
Proof.
  intros Hm Hu Hs. unfold job. specialize (Hm s Hs).
  destruct (m s) as [[a|e] s1]; simpl in *; [done|]. by apply Hu.
Qed.

End Preserves.

Lemma publishes_own_id_connected (c : nat) (cfg : LiveChannelConfig)
    (ev : nat) :
  preserves (λ s, Forall publishes_own_id (heap s))
    (initChannel_connected c cfg ev).
Proof.
  intros s H. munfold.
  assert (∀ h : list CentrifugeLiveChannel, Forall publishes_own_id h →
            Forall publishes_own_id
              (alter (λ x, Channel.with_publish
                             (Some (PublishVia (Channel.id x))) x) c h))
    as Hpub.
  { intros h Hh. apply Forall_alter; [done|].
    intros x _ _ f. simpl. congruence. }
  destruct (canPublish cfg) as [f|]; simpl;
    [destruct (f tt) as [[|]|e]; simpl|].
  - destruct (heap s !! c) as [ch|] eqn:Hch; simpl; [|done].
    rewrite list_lookup_alter_eq, Hch. simpl.
    apply Forall_alter; [|by intros [] ? ?].
    assert (alter (Channel.with_publish (Some (PublishVia (Channel.id ch))))
              c (heap s)
            = alter (λ x, Channel.with_publish
                            (Some (PublishVia (Channel.id x))) x) c (heap s))
      as ->; [|by apply Hpub].
    apply list_eq. intros n. rewrite !list_lookup_alter.
    case_decide; [subst n; by rewrite Hch|done].
  - destruct (heap s !! c) as [ch|] eqn:Hch; simpl; [|done].
    apply Forall_alter; [done|by intros [] ? ?].
  - done.
  - destruct (heap s !! c) as [ch|] eqn:Hch; simpl; [|done].
    apply Forall_alter; [done|by intros [] ? ?].
Qed.

Ltac pres_step :=
  match goal with
  | |- preserves _ (initChannel_connected _ _ _) =>
      apply publishes_own_id_connected
  | |- preserves _ (mbind _ _) => apply preserves_bind
  | |- preserves _ (mret _) => apply preserves_ret
  | |- preserves _ (throw _) => apply preserves_throw
  | |- preserves _ (gets _) => apply preserves_gets
  | |- preserves _ (call _) => apply preserves_call
  | |- preserves _ (deref _) => apply preserves_deref
  | |- preserves _ (async _) => apply preserves_async
  | |- preserves _ (modify (map_heap (alter _ _))) =>
      apply preserves_modify; intros ? ?; simpl;
      apply Forall_alter; [assumption|by intros [] ? ?]
  | |- preserves _ (modify (map_heap _)) =>
      apply preserves_modify; intros ? ?; simpl;
      apply Forall_app_2; [assumption|];
      apply Forall_singleton; intros ?; discriminate
  | |- preserves _ (modify _) =>
      apply preserves_modify; intros ? ?; assumption
  | |- preserves _ (match ?x with _ => _ end) => destruct x
  | |- preserves _ _ =>
      progress unfold getChannel, getErrorChannel, shutdownWithError,
        disconnect, new_CentrifugeLiveChannel, update, run_callback,
        unsubscribe, initalize, initChannel, initChannel_resolved,
        centrifuge_subscribe, isConnected, resume,
        set_task_state, subscription_event, await, invoke,
        transport_connect, transport_disconnect, transport_publish
  | |- ∀ _, _ => intros ?
  end.

Lemma publishes_own_id_emit (ls : list Listener) :
  preserves (λ s, Forall publishes_own_id (heap s)) (emit ls).
Proof.
  induction ls as [|l ls IH]; [apply preserves_ret|].
  simpl. apply preserves_bind; [|done]. repeat pres_step.
Qed.

Lemma publishes_own_id_step (e : Event) (s : CentrifugeSrv) :
  Forall publishes_own_id (heap s) →
  Forall publishes_own_id (heap (step e s)).
Proof.
  destruct e; unfold step, consumer_call.
  - revert s. change (preserves (λ s, Forall publishes_own_id (heap s))
                        (getChannel scopeId namespace path)).
    repeat pres_step.
  - revert s. change (preserves (λ s, Forall publishes_own_id (heap s))
                        (disconnect channel)).
    repeat pres_step.
  - apply (preserves_job (λ s, Forall publishes_own_id (heap s))); [|done].
    repeat pres_step. apply publishes_own_id_emit.
  - apply (preserves_job (λ s, Forall publishes_own_id (heap s))); [|done].
    repeat pres_step. apply publishes_own_id_emit.
  - apply (preserves_job (λ s, Forall publishes_own_id (heap s))); [|done].
    repeat pres_step. apply publishes_own_id_emit.
  - apply (preserves_job (λ s, Forall publishes_own_id (heap s))); [|done].
    repeat pres_step.
  - apply (preserves_job (λ s, Forall publishes_own_id (heap s))); [|done].
    repeat pres_step.
  - apply (preserves_job (λ s, Forall publishes_own_id (heap s))); [|done].
    repeat pres_step.
Qed.

Lemma publishes_own_id_run (es : list Event) (s : CentrifugeSrv) :
  Forall publishes_own_id (heap s) →
  Forall publishes_own_id (heap (run es s)).
Proof.
  revert s. induction es as [|e es IH]; intros s H; [done|].
  change (run (e :: es) s) with (run es (step e s)).
  by apply IH, publishes_own_id_step.
Qed.

(** X15: the publish operation of a channel, whenever it is defined, sends
    to that channel's own id: in every reachable state it is the closure
    that [initChannel] bound to [channel.id]. *)
Theorem publish_targets_own_id (connected : bool) (g d p : GrafanaLiveScope)
    (es : list Event) (c : nat) (ch : CentrifugeLiveChannel)
    (f : PublishFunction) :
  let s := run es (new_CentrifugeSrv connected g d p) in
  heap s !! c = Some ch → Channel.publish ch = Some f →
  f = PublishVia (Channel.id ch).
Proof.
  intros s Hc Hf.
  assert (Forall publishes_own_id (heap s)) as H.
  { apply publishes_own_id_run.
    unfold new_CentrifugeSrv. destruct connected; simpl; constructor. }
  exact (Forall_lookup_1 _ _ _ _ H Hc f Hf).
Qed.

(** *** After a failed initialization *)

(** X16: retry after failure.  Once the [catch] handler of a rejected
    initialization has run, the next [getChannel] for an address with that
    id and a scope that the lookup in [scopes] finds starts afresh: it
    allocates a new channel, registers it and starts a new initialization
    for it. *)
Theorem retry_after_failure (connected : bool) (g d p : GrafanaLiveScope)
    (es : list Event) (i : nat) (t : InitTask) (e : Error)
    (scopeId ns path : string) (scope : ScopeValue) :
  let s := run es (new_CentrifugeSrv connected g d p) in
  inits s !! i = Some t → task_state t = InitRejected e →
  Address.format scopeId ns path = task_id t →
  property_get (scopes s) scopeId = Some scope →
  let s1 := step (Resume i) s in
  getChannel scopeId ns path s1
  = (Normal (length (heap s1)), registered s1 scopeId ns path (started scope ns))
  ∧ task_channel t < length (heap s1).
Proof.
  intros s Ht Hst Hid Hsc s1.
  assert (Inv s) as HI by apply Inv_run, Inv_new.
  destruct (resume_InitRejected s i t e HI Ht Hst)
    as (_ & (ch & Hch & _) & Ho & _).
  fold s1 in Hch, Ho. split.
  - apply getChannel_fresh; [by rewrite Hid|].
    unfold s1. by rewrite step_scopes.
  - by eapply lookup_lt_Some.
Qed.

(** X17: the [catch] handler unregisters by id, not by instance.  If, by
    the time it runs, the id it captured is registered to another channel
    (its own was disconnected and the address requested again), it is that
    registration which goes, while the other channel object is left
    exactly as it was. *)
Theorem catch_unregisters_by_id (connected : bool) (g d p : GrafanaLiveScope)
    (es : list Event) (i : nat) (t : InitTask) (e : Error) (c' : nat)
    (ch' : CentrifugeLiveChannel) :
  let s := run es (new_CentrifugeSrv connected g d p) in
  inits s !! i = Some t → task_state t = InitRejected e →
  open s !! task_id t = Some c' → c' ≠ task_channel t →
  heap s !! c' = Some ch' →
  let s1 := step (Resume i) s in
  open s1 !! task_id t = None ∧ heap s1 !! c' = Some ch'.
Proof.
  intros s Ht Hst Ho Hne Hc' s1.
  assert (Inv s) as HI by apply Inv_run, Inv_new.
  destruct (resume_InitRejected s i t e HI Ht Hst) as (_ & _ & Ho1 & _).
  split; [done|].
  destruct (inv_tasks s HI i t Ht) as (ch & Hch & _).
  unfold s1. rewrite (resume_catch s i t e Ht Hst). unfold job.
  munfold. crunch Hch.
  destruct (Channel.subscription ch), (Channel.shutdownCallback ch) as [[k]|];
    crunch Hch; by rewrite !list_lookup_alter_ne.
Qed.

(** *** Transport callbacks and the channels *)

Lemma keeps_channel_view_invoke (l : Listener) :
  keeps channel_view (invoke l).
Proof. destruct l; unfold invoke; keeps_tac. Qed.

(** X18: the callbacks of the transport leave the channels alone: a
    connect, disconnect or server-side publish event changes no
    registration, no channel object, no initialization promise and no
    subscription (it makes no call of [subscribe] or [unsubscribe]),
    whatever listeners are registered; in particular losing the connection
    unregisters nothing. *)
Theorem transport_events_keep_channels (s : CentrifugeSrv) (e : Event) :
  channel_event e = false → channel_view (step e s) = channel_view s.
Proof.
  intros He. destruct e; try done; unfold step.
  - apply keeps_job; [|done]. unfold transport_connect. keeps_tac.
    apply keeps_emit, keeps_channel_view_invoke.
  - apply keeps_job; [|done]. unfold transport_disconnect. keeps_tac.
    apply keeps_emit, keeps_channel_view_invoke.
  - apply keeps_job; [|done]. unfold transport_publish. keeps_tac.
    apply keeps_emit, keeps_channel_view_invoke.
Qed.

Lemma transport_events_keep_channels_witness :
  let s := run [GetChannel "grafana" "testdata" "random-2s-stream";
                TransportConnect; Resume 0] Sample.srv in
  channel_view (step TransportDisconnect s) = channel_view s.
Proof.
  intros s. exact (transport_events_keep_channels s TransportDisconnect eq_refl).
Defined.

(** *** Different addresses, different channels *)

(** X19: in every reachable state, two [getChannel] calls for different
    addresses whose scopes the lookup in [scopes] finds (so that the scopes
    contain no separator) and whose namespaces contain no separator return
    different channel objects. *)
Theorem distinct_addresses_distinct_channels (connected : bool)
    (g d p : GrafanaLiveScope) (es : list Event)
    (a b c a' b' c' : string) (c1 c2 : nat) :
  let s := run es (new_CentrifugeSrv connected g d p) in
  let s1 := snd (getChannel a b c s) in
  Address.has_separator b = false → Address.has_separator b' = false →
  is_Some (property_get (scopes s) a) →
  is_Some (property_get (scopes s) a') →
  (a, b, c) ≠ (a', b', c') →
  fst (getChannel a b c s) = Normal c1 →
  fst (getChannel a' b' c' s1) = Normal c2 →
  c1 ≠ c2.
Proof.
  intros s s1 Hb Hb' Ha Ha' Hne H1 H2.
  assert (Inv s) as HI by apply Inv_run, Inv_new.
  assert (Inv s1) as HI1 by by apply Inv_getChannel.
  assert (Address.format a b c ≠ Address.format a' b' c') as Hid.
  { intros Heq. apply Hne.
    assert (Address.has_separator a = false) as Hsa.
    { apply (new_scopes_separator_free connected g d p).
      unfold s in Ha. by rewrite run_scopes in Ha. }
    assert (Address.has_separator a' = false) as Hsa'.
    { apply (new_scopes_separator_free connected g d p).
      unfold s in Ha'. by rewrite run_scopes in Ha'. }
    destruct (append_separator_inj a a' _ _ Hsa Hsa' Heq) as [-> Heq'].
    destruct (append_separator_inj b b' _ _ Hb Hb' Heq') as [-> ->]. done. }
  assert (open s1 !! Address.format a b c = Some c1) as Ho1.
  { unfold s1 in *. destruct Ha as [ga Hga].
    destruct (open s !! Address.format a b c) as [c0|] eqn:Ho.
    - rewrite (getChannel_registered _ _ _ _ _ Ho) in H1 |- *.
      simpl in *. congruence.
    - rewrite (getChannel_fresh _ _ _ _ _ Ho Hga) in H1 |- *.
      simpl in *. injection H1 as <-. apply lookup_insert_eq. }
  destruct (inv_open s1 HI1 _ _ Ho1) as (ch1 & Hch1 & Hid1 & _).
  assert (scopes s1 = scopes s) as Hsc.
  { assert (keeps scopes (getChannel a b c)) as Hk by keeps_tac. apply Hk. }
  destruct Ha' as [ga' Hga']. rewrite <- Hsc in Hga'.
  destruct (open s1 !! Address.format a' b' c') as [c0|] eqn:Ho2.
  - rewrite (getChannel_registered _ _ _ _ _ Ho2) in H2. simpl in H2.
    injection H2 as ->.
    destruct (inv_open s1 HI1 _ _ Ho2) as (ch2 & Hch2 & Hid2 & _).
    intros ->. congruence.
  - rewrite (getChannel_fresh _ _ _ _ _ Ho2 Hga') in H2. simpl in H2.
    injection H2 as <-. apply lookup_lt_Some in Hch1. lia.
Qed.

Lemma distinct_addresses_distinct_channels_witness :
  fst (getChannel "grafana" "testdata" "random-2s-stream" Sample.srv)
  = Normal 0
  ∧ fst (getChannel "grafana" "testdata" "random-flakey-stream"
           (snd (getChannel "grafana" "testdata" "random-2s-stream"
                   Sample.srv))) = Normal 1
  ∧ 0 ≠ 1.
Proof.
  assert (fst (getChannel "grafana" "testdata" "random-2s-stream" Sample.srv)
          = Normal 0) as H1 by (vm_compute; reflexivity).
  assert (fst (getChannel "grafana" "testdata" "random-flakey-stream"
                 (snd (getChannel "grafana" "testdata" "random-2s-stream"
                         Sample.srv))) = Normal 1) as H2
    by (vm_compute; reflexivity).
  split; [exact H1|]. split; [exact H2|].
  apply (distinct_addresses_distinct_channels false
           Sample.grafanaLiveCoreFeatures Sample.unsupported
           Sample.unsupported []
           "grafana" "testdata" "random-2s-stream"
           "grafana" "testdata" "random-flakey-stream" 0 1);
    [reflexivity|reflexivity
    |by exists (ScopeObject Sample.grafanaLiveCoreFeatures)
    |by exists (ScopeObject Sample.grafanaLiveCoreFeatures)
    |discriminate|exact H1|exact H2].
Defined.

(** *** Instances of the further properties *)

Lemma registry_wellformed_witness :
  let s := run [GetChannel "grafana" "testdata" "random-2s-stream"]
             Sample.srv in
  open s !! "grafana/testdata/random-2s-stream" = Some 0
  ∧ ∃ ch, heap s !! 0 = Some ch
          ∧ Channel.id ch = "grafana/testdata/random-2s-stream".
Proof.
  intros s.
  assert (open s !! "grafana/testdata/random-2s-stream" = Some 0) as H
    by (vm_compute; reflexivity).
  split; [exact H|].
  destruct (registry_wellformed false Sample.grafanaLiveCoreFeatures
              Sample.unsupported Sample.unsupported
              [GetChannel "grafana" "testdata" "random-2s-stream"] _ _ H)
    as (ch & H1 & H2 & _).
  exists ch. split; [exact H1|exact H2].
Defined.

Lemma one_init_per_channel_witness :
  let s := run [GetChannel "grafana" "testdata" "random-2s-stream";
                GetChannel "ds" "x" "y"] Sample.srv in
  length (inits s) ≤ length (heap s).
Proof.
  intros s.
  set (t0 := {| task_channel := 0;
                task_id := "grafana/testdata/random-2s-stream";
                task_state := AwaitSupport (Fulfilled (Some Sample.testdata)) |}).
  set (t1 := {| task_channel := 1; task_id := "ds/x/y";
                task_state := AwaitSupport (Fulfilled None) |}).
  assert (inits s !! 0 = Some t0) as H0 by (vm_compute; reflexivity).
  assert (inits s !! 1 = Some t1) as H1 by (vm_compute; reflexivity).
  exact (proj2 (proj2
    (one_init_per_channel false Sample.grafanaLiveCoreFeatures
       Sample.unsupported Sample.unsupported
       [GetChannel "grafana" "testdata" "random-2s-stream";
        GetChannel "ds" "x" "y"] 0 1 t0 t1 H0 H1))).
Defined.

Lemma unsupported_namespace_rejected_witness :
  let s := run [GetChannel "ds" "x" "y"] Sample.srv in
  open (step (Resume 0) (step (Resume 0) s)) !! "ds/x/y" = None.
Proof.
  intros s.
  set (t0 := {| task_channel := 0; task_id := "ds/x/y";
                task_state := AwaitSupport (Fulfilled None) |}).
  set (ch := Channel.with_shutdownCallback (Some (DeleteOpen "ds/x/y"))
               (Channel.new "ds/x/y" "ds" "x" "y")).
  assert (inits s !! 0 = Some t0) as H0 by (vm_compute; reflexivity).
  assert (heap s !! task_channel t0 = Some ch) as H1
    by (vm_compute; reflexivity).
  exact (proj2 (proj2
    (unsupported_namespace_rejected false Sample.grafanaLiveCoreFeatures
       Sample.unsupported Sample.unsupported [GetChannel "ds" "x" "y"]
       0 t0 ch H0 eq_refl H1))).
Defined.

Lemma unknown_path_rejected_witness :
  let s := run [GetChannel "grafana" "testdata" "nope"] Sample.srv in
  open (step (Resume 0) (step (Resume 0) s)) !! "grafana/testdata/nope"
  = None.
Proof.
  intros s.
  set (t0 := {| task_channel := 0; task_id := "grafana/testdata/nope";
                task_state := AwaitSupport (Fulfilled (Some Sample.testdata)) |}).
  set (ch := Channel.with_shutdownCallback
               (Some (DeleteOpen "grafana/testdata/nope"))
               (Channel.new "grafana/testdata/nope" "grafana" "testdata"
                  "nope")).
  assert (inits s !! 0 = Some t0) as H0 by (vm_compute; reflexivity).
  assert (heap s !! task_channel t0 = Some ch) as H1
    by (vm_compute; reflexivity).
  exact (proj2 (proj2
    (unknown_path_rejected false Sample.grafanaLiveCoreFeatures
       Sample.unsupported Sample.unsupported
       [GetChannel "grafana" "testdata" "nope"]
       0 t0 ch Sample.testdata H0 eq_refl H1 eq_refl))).
Defined.

Lemma init_completes_when_connected_witness :
  let s := run [TransportConnect;
                GetChannel "grafana" "testdata" "random-2s-stream"]
             Sample.srv in
  subscribe_calls (centrifuge (step (Resume 0) s))
  = subscribe_calls (centrifuge s)
    ++ [SubscriptionOf "grafana/testdata/random-2s-stream" 0].
Proof.
  intros s.
  set (t0 := {| task_channel := 0;
                task_id := "grafana/testdata/random-2s-stream";
                task_state := AwaitSupport (Fulfilled (Some Sample.testdata)) |}).
  set (ch := Channel.with_shutdownCallback
               (Some (DeleteOpen "grafana/testdata/random-2s-stream"))
               (Channel.new "grafana/testdata/random-2s-stream" "grafana"
                  "testdata" "random-2s-stream")).
  assert (inits s !! 0 = Some t0) as H0 by (vm_compute; reflexivity).
  assert (heap s !! task_channel t0 = Some ch) as H1
    by (vm_compute; reflexivity).
  assert (is_connected (centrifuge s) = true) as H2
    by (vm_compute; reflexivity).
  exact (proj1 (proj2 (proj2
    (proj1 (init_completes_when_connected s 0 t0 ch Sample.testdata
              Sample.random_2s_stream H0 eq_refl H1 eq_refl H2)
       true eq_refl)))).
Defined.

Lemma init_parks_when_disconnected_witness :
  let s := run [GetChannel "grafana" "testdata" "random-2s-stream"]
             Sample.srv in
  subscribe_calls (centrifuge (step (Resume 0) s)) = [].
Proof.
  intros s.
  set (t0 := {| task_channel := 0;
                task_id := "grafana/testdata/random-2s-stream";
                task_state := AwaitSupport (Fulfilled (Some Sample.testdata)) |}).
  set (ch := Channel.with_shutdownCallback
               (Some (DeleteOpen "grafana/testdata/random-2s-stream"))
               (Channel.new "grafana/testdata/random-2s-stream" "grafana"
                  "testdata" "random-2s-stream")).
  assert (inits s !! 0 = Some t0) as H0 by (vm_compute; reflexivity).
  assert (heap s !! task_channel t0 = Some ch) as H1
    by (vm_compute; reflexivity).
  assert (is_connected (centrifuge s) = false) as H2
    by (vm_compute; reflexivity).
  rewrite (init_parks_when_disconnected s 0 t0 ch Sample.testdata
             Sample.random_2s_stream H0 eq_refl H1 eq_refl H2).
  vm_compute. reflexivity.
Defined.

Lemma format_injective_witness :
  Address.format "ds" "7" "a/b" = Address.format "ds" "7" "a/b"
  ∧ "ds" = "ds" ∧ "7" = "7" ∧ "a/b" = "a/b".
Proof.
  split; [reflexivity|].
  exact (format_injective "ds" "7" "a/b" "ds" "7" "a/b"
           eq_refl eq_refl eq_refl eq_refl eq_refl).
Defined.

Lemma parked_init_completes_witness :
  let s := run [GetChannel "grafana" "testdata" "random-2s-stream";
                Resume 0; TransportConnect; TransportDisconnect]
             Sample.srv in
  is_connected (centrifuge s) = false
  ∧ subscribe_calls (centrifuge (step (Resume 0) s))
    = subscribe_calls (centrifuge s)
      ++ [SubscriptionOf "grafana/testdata/random-2s-stream" 0].
Proof.
  intros s.
  set (t0 := {| task_channel := 0;
                task_id := "grafana/testdata/random-2s-stream";
                task_state := AwaitBlocker Sample.random_2s_stream 0 |}).
  set (ch := Channel.with_config (Some Sample.random_2s_stream)
               (Channel.with_shutdownCallback
                  (Some (DeleteOpen "grafana/testdata/random-2s-stream"))
                  (Channel.new "grafana/testdata/random-2s-stream" "grafana"
                     "testdata" "random-2s-stream"))).
  assert (inits s !! 0 = Some t0) as H0 by (vm_compute; reflexivity).
  assert (connectionBlocker s = Resolved) as Hb by (vm_compute; reflexivity).
  assert (heap s !! task_channel t0 = Some ch) as H1
    by (vm_compute; reflexivity).
  split; [vm_compute; reflexivity|].
  exact (proj1 (proj2 (proj2
    (proj1 (parked_init_completes s 0 t0 ch Sample.random_2s_stream 0
              H0 eq_refl Hb H1)
       true eq_refl)))).
Defined.

Lemma channel_identity_kept_witness :
  let s := run [GetChannel "grafana" "testdata" "random-2s-stream"]
             Sample.srv in
  ∃ ch', heap (run [Resume 0; ChannelDisconnect 0; TransportConnect;
                    Resume 0] s) !! 0 = Some ch'
         ∧ Channel.id ch' = "grafana/testdata/random-2s-stream".
Proof.
  intros s.
  set (ch := Channel.with_shutdownCallback
               (Some (DeleteOpen "grafana/testdata/random-2s-stream"))
               (Channel.new "grafana/testdata/random-2s-stream" "grafana"
                  "testdata" "random-2s-stream")).
  assert (heap s !! 0 = Some ch) as H by (vm_compute; reflexivity).
  destruct (channel_identity_kept s
              [Resume 0; ChannelDisconnect 0; TransportConnect; Resume 0]
              0 ch H) as (ch' & H1 & H2 & _).
  exists ch'. split; [exact H1|exact H2].
Defined.

Lemma publish_targets_own_id_witness :
  let s := run [TransportConnect;
                GetChannel "grafana" "testdata" "random-2s-stream";
                Resume 0] Sample.srv in
  ∃ ch f, heap s !! 0 = Some ch ∧ Channel.publish ch = Some f
          ∧ f = PublishVia (Channel.id ch).
Proof.
  intros s.
  destruct (heap s !! 0) as [ch|] eqn:Hch; [|vm_compute in Hch; discriminate].
  destruct (Channel.publish ch) as [f|] eqn:Hf.
  - exists ch, f. split; [reflexivity|]. split; [exact Hf|].
    exact (publish_targets_own_id false Sample.grafanaLiveCoreFeatures
             Sample.unsupported Sample.unsupported
             [TransportConnect;
              GetChannel "grafana" "testdata" "random-2s-stream"; Resume 0]
             0 ch f Hch Hf).
  - vm_compute in Hch. injection Hch as <-. discriminate Hf.
Defined.

Lemma retry_after_failure_witness :
  let s := run [GetChannel "ds" "x" "y"; Resume 0] Sample.srv in
  fst (getChannel "ds" "x" "y" (step (Resume 0) s)) = Normal 1.
Proof.
  intros s.
  set (t0 := {| task_channel := 0; task_id := "ds/x/y";
                task_state := InitRejected "xdoes not support streaming" |}).
  assert (inits s !! 0 = Some t0) as H0 by (vm_compute; reflexivity).
  assert (property_get (scopes s) "ds"
          = Some (ScopeObject Sample.unsupported)) as Hs
    by (vm_compute; reflexivity).
  destruct (retry_after_failure false Sample.grafanaLiveCoreFeatures
              Sample.unsupported Sample.unsupported
              [GetChannel "ds" "x" "y"; Resume 0] 0 t0 _ "ds" "x" "y" _
              H0 eq_refl eq_refl Hs) as [H _].
  apply (f_equal fst) in H. etrans; [exact H|]. vm_compute. reflexivity.
Defined.

Lemma catch_unregisters_by_id_witness :
  let s := run [GetChannel "ds" "x" "y"; ChannelDisconnect 0;
                GetChannel "ds" "x" "y"; Resume 0] Sample.srv in
  open s !! "ds/x/y" = Some 1
  ∧ open (step (Resume 0) s) !! "ds/x/y" = None
  ∧ ((λ ch, state (Channel.currentStatus ch))
       <$> (heap (step (Resume 0) s) !! 1)) = Some Pending.
Proof.
  intros s.
  set (t0 := {| task_channel := 0; task_id := "ds/x/y";
                task_state := InitRejected "xdoes not support streaming" |}).
  set (ch1 := Channel.with_shutdownCallback (Some (DeleteOpen "ds/x/y"))
                (Channel.new "ds/x/y" "ds" "x" "y")).
  assert (inits s !! 0 = Some t0) as H0 by (vm_compute; reflexivity).
  assert (open s !! task_id t0 = Some 1) as Ho by (vm_compute; reflexivity).
  assert (heap s !! 1 = Some ch1) as H1 by (vm_compute; reflexivity).
  destruct (catch_unregisters_by_id false Sample.grafanaLiveCoreFeatures
              Sample.unsupported Sample.unsupported
              [GetChannel "ds" "x" "y"; ChannelDisconnect 0;
               GetChannel "ds" "x" "y"; Resume 0] 0 t0 _ 1 ch1
              H0 eq_refl Ho (λ H, O_S 0 (eq_sym H)) H1) as [Ha Hb].
  split; [exact Ho|]. split; [exact Ha|].
  etrans; [exact (f_equal (fmap (λ ch, state (Channel.currentStatus ch))) Hb)|].
  reflexivity.
Defined.
